(** * Housing dashboard core: metric engine, city-to-metro matcher, ZIP filter

    A shallow embedding of [config_data.py] (compute_pti, compute_rankings,
    compute_yoy, get_metro_yoy and the derived keys of the loader), of
    [geo_utils.py] (_resolve_shapefile_path, parse_city_state,
    build_city_tokens, resolve_manual_cbsa_name, build_city_cbsa_polygons,
    get_zip_polygons_for_metro), of the tables of [charts.py], of
    [events.py] and of the ZIP-view filtering, the affordability bands
    and the session state of [app.py].

    Conventions of the embedding.
    - A Python [str] is a [string] of bytes (UTF-8).  Equality, [in],
      [split] and concatenation act on bytes as they do on code points;
      [lower], [upper], [strip] and the slice [[:2]] are the ASCII ones,
      which is what Python computes on ASCII text.
    - A float is an [xnum]: a finite rational, one of the two infinities
      or NaN.  Arithmetic on finite numbers is exact (no rounding, no
      overflow) and zero has no sign.  The code computes on IEEE doubles:
      where it rounds to one decimal ([Series.round(1)]) the double it
      rounds can sit on the other side of a tie than the exact value
      (63.75 is 63.74999999999999 as the double of 51 / 80 * 100), and a
      quotient by a zero takes the sign of that zero.  The theorems on
      rounded values therefore bound them instead of fixing their last
      digit, and none depends on the sign of an infinity obtained by
      dividing by zero.
    - A DataFrame is the list of its rows, in row order.
    - [Series.str.contains(pat)] is a regular-expression search
      ([regex=True] is the pandas default); the regular-expression engine
      is a parameter [re_compile] of the matcher, [None] standing for
      [re.error]. *)

From Stdlib Require Import Bool List String Ascii Arith ZArith QArith Qround Qabs Lia Lqa Permutation.
From Stdlib Require Import DecimalString DecimalNat.
Import ListNotations.

Local Open Scope string_scope.
Local Open Scope list_scope.

(** ** Python string primitives *)

Module PyStr.

Definition in_range (lo hi : nat) (c : ascii) : bool :=
  let n := nat_of_ascii c in (lo <=? n)%nat && (n <=? hi)%nat.

(** [str.isspace] on ASCII: tab, newline, VT, FF, CR, FS, GS, RS, US, space. *)
Definition is_space (c : ascii) : bool :=
  in_range 9 13 c || in_range 28 32 c.

Definition lower_char (c : ascii) : ascii :=
  if in_range 65 90 c then ascii_of_nat (nat_of_ascii c + 32) else c.

Definition upper_char (c : ascii) : ascii :=
  if in_range 97 122 c then ascii_of_nat (nat_of_ascii c - 32) else c.

Fixpoint map_chars (f : ascii -> ascii) (s : string) : string :=
  match s with
  | EmptyString => EmptyString
  | String c s' => String (f c) (map_chars f s')
  end.

Definition lower : string -> string := map_chars lower_char.
Definition upper : string -> string := map_chars upper_char.

Fixpoint lstrip (s : string) : string :=
  match s with
  | EmptyString => EmptyString
  | String c s' => if is_space c then lstrip s' else s
  end.

Definition reverse (s : string) : string :=
  string_of_list_ascii (rev (list_ascii_of_string s)).

Definition rstrip (s : string) : string := reverse (lstrip (reverse s)).

Definition strip (s : string) : string := rstrip (lstrip s).

(** [t in s] *)
Fixpoint contains (t s : string) : bool :=
  prefix t s ||
  match s with
  | EmptyString => false
  | String _ s' => contains t s'
  end.

(** [s.split(sep)] for a non-empty separator: the pieces between the
    non-overlapping occurrences of [sep], scanned from the left.  [skip]
    counts the bytes of a separator still to be passed over and [cur] holds
    the current piece, reversed. *)
Fixpoint split_aux (sep s : string) (skip : nat) (cur : list ascii) : list string :=
  match s with
  | EmptyString => [string_of_list_ascii (rev cur)]
  | String c s' =>
      match skip with
      | S k => split_aux sep s' k cur
      | O =>
          if prefix sep s
          then string_of_list_ascii (rev cur) :: split_aux sep s' (String.length sep - 1) []
          else split_aux sep s' 0 (c :: cur)
      end
  end.

Definition split (sep s : string) : list string := split_aux sep s 0 [].

(** [s[:n]] *)
Definition take (n : nat) (s : string) : string := substring 0 n s.

(** truthiness of a [str] and the [or] of two strings *)
Definition truthy (s : string) : bool := negb (s =? "").
Definition py_or (a b : string) : string := if truthy a then a else b.

(** [list(dict.fromkeys(l))]: the first occurrence of each element, in order *)
Fixpoint dedup_aux (seen l : list string) : list string :=
  match l with
  | [] => []
  | x :: l' =>
      if existsb (String.eqb x) seen then dedup_aux seen l'
      else x :: dedup_aux (x :: seen) l'
  end.

Definition fromkeys (l : list string) : list string := dedup_aux [] l.

End PyStr.

(** ** Float columns *)

Module Num.

(** A float: a finite number, an infinity or NaN.  Arithmetic on finite
    numbers is exact and zero has no sign. *)
Inductive xnum : Type :=
| Fin (q : Q)
| PInf
| NInf
| NaN.

Definition of_Z (z : Z) : xnum := Fin (inject_Z z).

Definition Qltb (a b : Q) : bool := negb (Qle_bool b a).

Definition notna (x : xnum) : bool :=
  match x with NaN => false | _ => true end.

Definition isfinite (x : xnum) : bool :=
  match x with Fin _ => true | _ => false end.

(** [a < b], [a <= b], [a == b]; every comparison with NaN is false *)
Definition xltb (a b : xnum) : bool :=
  match a, b with
  | NaN, _ | _, NaN => false
  | Fin x, Fin y => Qltb x y
  | NInf, NInf => false
  | NInf, _ => true
  | _, NInf => false
  | PInf, _ => false
  | Fin _, PInf => true
  end.

Definition xleb (a b : xnum) : bool :=
  match a, b with
  | NaN, _ | _, NaN => false
  | Fin x, Fin y => Qle_bool x y
  | NInf, _ => true
  | _, NInf => false
  | _, PInf => true
  | PInf, Fin _ => false
  end.

Definition xeqb (a b : xnum) : bool :=
  match a, b with
  | Fin x, Fin y => Qeq_bool x y
  | PInf, PInf | NInf, NInf => true
  | _, _ => false
  end.

Definition xneg (a : xnum) : xnum :=
  match a with
  | Fin x => Fin (- x)
  | PInf => NInf
  | NInf => PInf
  | NaN => NaN
  end.

Definition xadd (a b : xnum) : xnum :=
  match a, b with
  | NaN, _ | _, NaN => NaN
  | Fin x, Fin y => Fin (x + y)
  | PInf, NInf | NInf, PInf => NaN
  | PInf, _ | _, PInf => PInf
  | NInf, _ | _, NInf => NInf
  end.

Definition xsub (a b : xnum) : xnum := xadd a (xneg b).

(** the infinity of the sign of [c], NaN when [c] is [Eq] *)
Definition inf_of_sign (c : comparison) : xnum :=
  match c with Gt => PInf | Lt => NInf | Eq => NaN end.

Definition sign (a : xnum) : comparison :=
  match a with
  | Fin x => Qcompare x 0
  | PInf => Gt
  | NInf => Lt
  | NaN => Eq
  end.

Definition sign_mul (c d : comparison) : comparison :=
  match c, d with
  | Eq, _ | _, Eq => Eq
  | Gt, Gt | Lt, Lt => Gt
  | _, _ => Lt
  end.

Definition xmul (a b : xnum) : xnum :=
  match a, b with
  | NaN, _ | _, NaN => NaN
  | Fin x, Fin y => Fin (x * y)
  | _, _ => inf_of_sign (sign_mul (sign a) (sign b))
  end.

Definition xdiv (a b : xnum) : xnum :=
  match a, b with
  | NaN, _ | _, NaN => NaN
  | Fin x, Fin y =>
      if Qeq_bool y 0 then inf_of_sign (Qcompare x 0) else Fin (x / y)
  | Fin _, _ => Fin 0
  | _, Fin y => if Qeq_bool y 0 then a else inf_of_sign (sign_mul (sign a) (sign b))
  | _, _ => NaN
  end.

(** [numpy.rint]: the nearest integer, halves to the even one *)
Definition rint (x : Q) : Z :=
  let n := Qfloor x in
  let r := x - inject_Z n in
  if Qltb r (1 # 2) then n
  else if Qltb (1 # 2) r then (n + 1)%Z
  else if Z.even n then n else (n + 1)%Z.

(** [Series.round(1)] = [rint(x * 10) / 10], here on the exact value of
    [x]: within 1/20 of [x], and equal to what the code computes except
    where the double of [x * 10] falls on the other side of a half. *)
Definition round1 (x : Q) : Q := inject_Z (rint (x * 10)) / 10.

Definition xround1 (a : xnum) : xnum :=
  match a with Fin x => Fin (round1 x) | _ => a end.

(** [Series.mean()]: NaN cells are skipped; NaN when nothing is left *)
Definition xsum (l : list xnum) : xnum := fold_left xadd l (Fin 0).

Definition mean (l : list xnum) : xnum :=
  let l := filter notna l in
  match l with
  | [] => NaN
  | _ => xdiv (xsum l) (of_Z (Z.of_nat (List.length l)))
  end.

End Num.

Import Num.

(** ** config_data.py: PTI, rankings, YoY *)

Module Metric.

(** A housing record (one row of the table of [load_all_data]). *)
Record HouseRow : Type := mkHouseRow {
  city : string;
  city_full : string;
  zip_code_str : string;
  year : Z;
  median_sale_price : xnum;
  per_capita_income : xnum;
  lat : xnum;
  lon : xnum
}.

(** A row with the added column [PTI]. *)
Record PtiRow : Type := mkPtiRow {
  pti_house : HouseRow;
  PTI : xnum
}.

Definition pti_valid (r : HouseRow) : bool :=
  notna (median_sale_price r)
  && notna (per_capita_income r)
  && xltb (Fin 0) (median_sale_price r)
  && xleb (Fin 5000) (per_capita_income r).

Definition pti_outlier (p : xnum) : bool :=
  xltb p (Fin (1 # 2)) || xltb (Fin 50) p.

Definition compute_pti (df : list HouseRow) : list PtiRow :=
  let df := filter pti_valid df in
  let df := map (fun r => mkPtiRow r (xdiv (median_sale_price r) (per_capita_income r))) df in
  let df := map (fun r => if pti_outlier (PTI r) then mkPtiRow (pti_house r) NaN else r) df in
  filter (fun r => notna (PTI r)) df.

(** *** compute_rankings *)

Section Rankings.

Context {A : Type}.
Variable value_col : A -> xnum.

Record Ranked : Type := mkRanked {
  ranked_row : A;
  rank : Z;
  rank_total : Z;
  percentile : xnum
}.

(** [Series.rank(ascending=False, method="min")] of one cell: NaN stays NaN,
    any other value gets one plus the number of cells strictly above it. *)
Definition rank_desc_min (col : list xnum) (v : xnum) : option Z :=
  if notna v
  then Some (1 + Z.of_nat (List.length (filter (fun w => xltb v w) col)))%Z
  else None.

(** [.astype(int)] raises on a NaN rank: [None]. *)
Fixpoint astype_int (l : list (option Z)) : option (list Z) :=
  match l with
  | [] => Some []
  | None :: _ => None
  | Some z :: l' =>
      match astype_int l' with
      | Some zs => Some (z :: zs)
      | None => None
      end
  end.

(** the column [percentile], with the quotient, the product and the
    rounding taken exactly *)
Definition percentile_of (total rk : Z) : xnum :=
  xround1 (xmul (xdiv (of_Z (total - rk + 1)) (of_Z total)) (Fin 100)).

Definition compute_rankings (df : list A) : option (list Ranked) :=
  let col := map value_col df in
  match astype_int (map (rank_desc_min col) col) with
  | None => None
  | Some ranks =>
      let total := Z.of_nat (List.length df) in
      Some (map (fun '(r, rk) => mkRanked r rk total (percentile_of total rk))
                (combine df ranks))
  end.

(** The same table written row by row: [above df v] counts the rows
    strictly above [v], and [ranked_in df r] is the output row of [r]. *)
Definition above (df : list A) (v : xnum) : nat :=
  List.length (filter (fun x => xltb v (value_col x)) df).

Definition rank_in (df : list A) (v : xnum) : Z := (1 + Z.of_nat (above df v))%Z.

Definition ranked_in (df : list A) (r : A) : Ranked :=
  let total := Z.of_nat (List.length df) in
  let rk := rank_in df (value_col r) in
  mkRanked r rk total (percentile_of total rk).

End Rankings.

Arguments Ranked A : clear implicits.

(** the percentage that compute_yoy derives from the two group means,
    with the difference, the quotient, the product and the rounding taken
    exactly, and an unsigned zero *)
Definition pct_of (c p : xnum) : xnum :=
  xround1 (xmul (xdiv (xsub c p) p) (Fin 100)).

(** *** compute_yoy *)

Section YoY.

(** [A] is the row type of [df_all]; [K] the type of the values of
    [group_cols], compared with [keqb]. *)
Context {A K : Type}.
Variable year_col : A -> Z.
Variable group_cols : A -> K.
Variable keqb : K -> K -> bool.
Variable value_col : A -> xnum.

(** One row of [groupby(group_cols, as_index=False).agg({value_col: "mean"})]. *)
Record AggRow : Type := mkAggRow {
  agg_key : K;
  agg_value : xnum
}.

(** One row of the merged table. *)
Record YoyRow : Type := mkYoyRow {
  yoy_key : K;
  yoy_value : xnum;
  yoy_value_prev : xnum;
  yoy_change : xnum;
  yoy_pct : xnum
}.

(** The two shapes of the result: the current-year rows with two NaN
    columns added (no previous-year row at all), or the merged table. *)
Inductive YoyTable : Type :=
| CurrentRows (rows : list (A * xnum * xnum))
| Merged (rows : list YoyRow).

(** The keys of a table, each once, in order of first occurrence.
    (pandas orders the groups by key; the order of the groups is not
    modelled.) *)
Fixpoint group_keys (seen : list K) (df : list A) : list K :=
  match df with
  | [] => []
  | r :: df' =>
      if existsb (keqb (group_cols r)) seen then group_keys seen df'
      else group_cols r :: group_keys (group_cols r :: seen) df'
  end.

Definition group_mean (df : list A) (k : K) : xnum :=
  mean (map value_col (filter (fun r => keqb (group_cols r) k) df)).

Definition groupby_mean (df : list A) : list AggRow :=
  map (fun k => mkAggRow k (group_mean df k)) (group_keys [] df).

(** the left join of one current group on the previous-year groups *)
Definition merge_left (prev : list AggRow) (cur : AggRow) : xnum :=
  match find (fun p => keqb (agg_key p) (agg_key cur)) prev with
  | Some p => agg_value p
  | None => NaN
  end.

Definition compute_yoy (df_all : list A) (current_year : Z) : YoyTable :=
  let prev_year := (current_year - 1)%Z in
  let df_current := filter (fun r => Z.eqb (year_col r) current_year) df_all in
  let df_prev := filter (fun r => Z.eqb (year_col r) prev_year) df_all in
  match df_prev with
  | [] => CurrentRows (map (fun r => (r, NaN, NaN)) df_current)
  | _ =>
      let agg_current := groupby_mean df_current in
      let agg_prev := groupby_mean df_prev in
      Merged
        (map (fun c =>
                let p := merge_left agg_prev c in
                let change := xsub (agg_value c) p in
                mkYoyRow (agg_key c) (agg_value c) p change
                         (xround1 (xmul (xdiv change p) (Fin 100))))
             agg_current)
  end.

End YoY.

Arguments AggRow K : clear implicits.
Arguments YoyRow K : clear implicits.
Arguments YoyTable A K : clear implicits.

End Metric.

(** ** geo_utils.py: city / CBSA matching and the ZIP filter *)

Module Geo.

Import PyStr.

(** config_data.py: manual mapping for special metros (keys are lowercase) *)
Definition MANUAL_CBSA_NAME_MAP : list (string * string) :=
  [("dc_metro", "Washington-Arlington-Alexandria, DC-VA-MD-WV")].

Fixpoint dict_get (d : list (string * string)) (key : string) : option string :=
  match d with
  | [] => None
  | (k, v) :: d' => if k =? key then Some v else dict_get d' key
  end.

(** Parse a full city string like 'Seattle, WA' into (city_name, state_abbrev). *)
Definition parse_city_state (city city_full : string) : string * string :=
  let raw := py_or (py_or city_full city) "" in
  let parts := map strip (split "," raw) in
  let '(city_part, state_part) :=
    match parts with
    | p0 :: p1 :: _ => (p0, p1)
    | [p0] => (p0, "")
    | [] => ("", "")
    end in
  let city_base := strip city_part in
  let state_abbrev :=
    if truthy state_part then take 2 (upper (strip state_part)) else "" in
  (city_base, state_abbrev).

(** the hyphen, the en dash and the em dash *)
Definition separators : list string := ["-"; "–"; "—"].

(** Tokenize a city name: the lowercased name, then its pieces at each
    separator that occurs in it, without duplicates. *)
Definition build_city_tokens (city_base : string) : list string :=
  let city_base := lower (strip (py_or city_base "")) in
  if truthy city_base then
    let tokens :=
      fold_left
        (fun tokens sep =>
           if contains sep city_base
           then tokens ++ filter truthy (map strip (split sep city_base))
           else tokens)
        separators [city_base] in
    fromkeys tokens
  else [].

(** Special CBSA matching cases: the manual table, then any label
    containing boston. *)
Definition resolve_manual_cbsa_name (city city_full : string) : option string :=
  let key := lower (strip (py_or (py_or city_full city) "")) in
  match dict_get MANUAL_CBSA_NAME_MAP key with
  | Some name => Some name
  | None =>
      if contains "boston" key then Some "Boston-Cambridge-Newton, MA-NH"
      else None
  end.

Section Matcher.

(** [G] is the type of geometries (shapely objects), never inspected. *)
Context {G : Type}.

(** [re.compile]: [None] when the pattern is not a regular expression,
    otherwise the predicate [re.search(pat, _) is not None]. *)
Variable re_compile : string -> option (string -> bool).

(** A row of the CBSA table with the centroid columns added. *)
Record Boundary : Type := mkBoundary {
  NAME : string;
  geometry : G;
  centroid_lat : xnum;
  centroid_lon : xnum
}.

Definition name_lower (b : Boundary) : string := lower (NAME b).
Definition name_upper (b : Boundary) : string := upper (NAME b).

(** A row of [df_city].  [city_full] is [None] when the column is absent;
    an absent [lat] or [lon] is NaN. *)
Record CityRow : Type := mkCityRow {
  city : string;
  city_full : option string;
  avg_metric_value : xnum;
  lat : xnum;
  lon : xnum
}.

Record MetroRecord : Type := mkMetroRecord {
  rec_city : string;
  rec_city_full : string;
  rec_metro_name : string;
  rec_avg_metric_value : xnum;
  rec_geometry : G
}.

(** What the loop body does with one row: append a record for the boundary
    [best], [continue] without a record, or raise. *)
Inductive outcome : Type :=
| Matched (best : Boundary)
| Dropped
| Raised.

Definition dist2 (lat0 lon0 : xnum) (b : Boundary) : xnum :=
  let dlat := xsub (centroid_lat b) lat0 in
  let dlon := xsub (centroid_lon b) lon0 in
  xadd (xmul dlat dlat) (xmul dlon dlon).

(** the order of [sort_values]: ascending, NaN last *)
Definition key_le (a b : xnum) : bool :=
  match a, b with
  | _, NaN => true
  | NaN, _ => false
  | _, _ => xleb a b
  end.

Fixpoint insert_by (key : Boundary -> xnum) (x : Boundary) (l : list Boundary)
  : list Boundary :=
  match l with
  | [] => [x]
  | y :: l' => if key_le (key x) (key y) then x :: l else y :: insert_by key x l'
  end.

(** [sort_values(key)], written as a stable insertion sort.  The default
    sort kind of pandas need not be stable; the properties proved of the
    matcher only use that the first row of the result is a least one. *)
Definition sort_values (key : Boundary -> xnum) (l : list Boundary) : list Boundary :=
  fold_right (insert_by key) [] l.

(** Multiple CBSA matches: pick the geographically closest one.
    [c0 :: rest] is the non-empty candidate table. *)
Definition pick_best (c0 : Boundary) (rest : list Boundary) (lat0 lon0 : xnum)
  : Boundary :=
  let candidates := c0 :: rest in
  if (1 <? List.length candidates)%nat && isfinite lat0 && isfinite lon0
  then hd c0 (sort_values (dist2 lat0 lon0) candidates)
  else c0.

(** 1. Manual override: the rows whose NAME is the manual name. *)
Definition manual_matches (cbsa : list Boundary) (city city_full : string)
  : list Boundary :=
  match resolve_manual_cbsa_name city city_full with
  | Some manual_name =>
      if truthy manual_name
      then filter (fun b => NAME b =? manual_name) cbsa
      else []
  | None => []
  end.

(** 2. Exact / contains match.  [None]: [str.contains] raised. *)
Definition exact_matches (cbsa : list Boundary) (city_full : string) : list Boundary :=
  filter (fun b => name_lower b =? lower city_full) cbsa.

Definition contains_matches (cbsa : list Boundary) (city_full : string)
  : option (list Boundary) :=
  match re_compile (lower city_full) with
  | Some search => Some (filter (fun b => search (name_lower b)) cbsa)
  | None => None
  end.

Definition exact_or_contains (cbsa : list Boundary) (city_full : string)
  : option (list Boundary) :=
  match exact_matches cbsa city_full with
  | [] => contains_matches cbsa city_full
  | exact => Some exact
  end.

(** 3. Fuzzy city-base + state matching, entered with no candidate. *)
Definition base_mask (tokens : list string) (b : Boundary) : bool :=
  existsb (fun t => contains t (name_lower b)) tokens.

Definition fuzzy_matches (cbsa : list Boundary) (city city_full : string)
  : option (list Boundary) :=
  let '(city_base, state_abbrev) := parse_city_state city city_full in
  let tokens := build_city_tokens city_base in
  match tokens with
  | [] => Some []
  | _ =>
      if existsb (base_mask tokens) cbsa then
        if truthy state_abbrev then
          match re_compile state_abbrev with
          | Some search =>
              let mask := fun b => base_mask tokens b && search (name_upper b) in
              if existsb mask cbsa then Some (filter mask cbsa) else Some []
          | None => None
          end
        else Some (filter (base_mask tokens) cbsa)
      else Some []
  end.

(** The candidates of stages 2 and 3.  [None]: [str.contains] raised. *)
Definition string_candidates (cbsa : list Boundary) (city city_full : string)
  : option (list Boundary) :=
  match exact_or_contains cbsa city_full with
  | None => None
  | Some [] => fuzzy_matches cbsa city city_full
  | Some candidates => Some candidates
  end.

(** Stages 2 and 3 and the choice among the candidates. *)
Definition string_stages (cbsa : list Boundary) (city city_full : string)
  (lat0 lon0 : xnum) : outcome :=
  match string_candidates cbsa city city_full with
  | None => Raised
  | Some [] => Dropped
  | Some (c0 :: rest) => Matched (pick_best c0 rest lat0 lon0)
  end.

Definition row_city_full (row : CityRow) : string :=
  strip (match city_full row with Some s => s | None => city row end).

(** The body of the loop over [df_city]. *)
Definition match_row (cbsa : list Boundary) (row : CityRow) : outcome :=
  let city_full := row_city_full row in
  if truthy city_full then
    match manual_matches cbsa (city row) city_full with
    | best :: _ => Matched best
    | [] => string_stages cbsa (city row) city_full (lat row) (lon row)
    end
  else Dropped.

Definition record_of (row : CityRow) (best : Boundary) : MetroRecord :=
  mkMetroRecord (city row) (row_city_full row) (row_city_full row)
                (avg_metric_value row) (geometry best).

Fixpoint match_rows (cbsa : list Boundary) (df_city : list CityRow)
  : option (list MetroRecord) :=
  match df_city with
  | [] => Some []
  | row :: df' =>
      match match_row cbsa row with
      | Raised => None
      | Dropped => match_rows cbsa df'
      | Matched best =>
          match match_rows cbsa df' with
          | Some records => Some (record_of row best :: records)
          | None => None
          end
      end
  end.

Definition build_city_cbsa_polygons (df_city : list CityRow) (cbsa_gdf : list Boundary)
  : option (list (Metric.Ranked MetroRecord)) :=
  match match_rows cbsa_gdf df_city with
  | None => None
  | Some [] => Some []
  | Some records => Metric.compute_rankings rec_avg_metric_value records
  end.

(** *** Metro to ZIP polygons *)

Record ZipMetricRow : Type := mkZipMetricRow {
  zm_city : string;
  zm_zip_code_str : string;
  zm_metric_value : xnum;
  zm_city_full : string
}.

Record ZctaShape : Type := mkZctaShape {
  zs_zip_code_str : string;
  zs_geometry : G
}.

(** a row of [zip_df_small] *)
Definition ZipSmall : Type := (string * xnum * string)%type.

(** a row of the merged GeoDataFrame *)
Record ZipMerged : Type := mkZipMerged {
  mg_zip_code_str : string;
  mg_geometry : G;
  mg_metric_value : xnum;
  mg_city_full : string
}.

(** [drop_duplicates] compares cells by value, a NaN being a duplicate of a NaN *)
Definition same_cell (a b : xnum) : bool :=
  match a, b with
  | NaN, NaN => true
  | _, _ => xeqb a b
  end.

Definition small_eqb (a b : ZipSmall) : bool :=
  let '(z1, m1, f1) := a in
  let '(z2, m2, f2) := b in
  (z1 =? z2) && same_cell m1 m2 && (f1 =? f2).

Fixpoint drop_duplicates (seen l : list ZipSmall) : list ZipSmall :=
  match l with
  | [] => []
  | x :: l' =>
      if existsb (small_eqb x) seen then drop_duplicates seen l'
      else x :: drop_duplicates (x :: seen) l'
  end.

(** [left.merge(right, on="zip_code_str", how="inner")] *)
Definition merge_inner (left : list ZctaShape) (right : list ZipSmall)
  : list ZipMerged :=
  flat_map
    (fun s =>
       map (fun '(z, m, f) => mkZipMerged (zs_zip_code_str s) (zs_geometry s) m f)
           (filter (fun '(z, _, _) => z =? zs_zip_code_str s) right))
    left.

Definition get_zip_polygons_for_metro (selected_city : string)
  (zcta_shapes : list ZctaShape) (df_zip_metric : list ZipMetricRow)
  : list ZipMetricRow * list ZipMerged :=
  let zip_df_city :=
    filter (fun r => notna (zm_metric_value r))
           (filter (fun r => zm_city r =? selected_city) df_zip_metric) in
  match zip_df_city with
  | [] => (zip_df_city, [])
  | _ =>
      let zip_df_small :=
        drop_duplicates []
          (map (fun r => (zm_zip_code_str r, zm_metric_value r, zm_city_full r))
               zip_df_city) in
      (zip_df_city, merge_inner zcta_shapes zip_df_small)
  end.

(** the two intermediate tables of [get_zip_polygons_for_metro] *)
Definition zip_rows_of (selected_city : string) (df : list ZipMetricRow)
  : list ZipMetricRow :=
  filter (fun r => notna (zm_metric_value r))
         (filter (fun r => zm_city r =? selected_city) df).

Definition zip_small_of (rows : list ZipMetricRow) : list ZipSmall :=
  drop_duplicates []
    (map (fun r => (zm_zip_code_str r, zm_metric_value r, zm_city_full r)) rows).

(** app.py, ZIP view: the table that is ranked and shown; [[]] where the
    page shows a warning instead. *)
Definition zip_view_rows (selected_city : string)
  (zcta_shapes : list ZctaShape) (df_zip_metric : list ZipMetricRow)
  : list ZipMetricRow :=
  let '(zip_df_city, gdf_merge) :=
    get_zip_polygons_for_metro selected_city zcta_shapes df_zip_metric in
  match gdf_merge, zip_df_city with
  | [], _ | _, [] => []
  | _, _ =>
      let zip_df_city := filter (fun r => notna (zm_metric_value r)) zip_df_city in
      let valid_zips := map mg_zip_code_str gdf_merge in
      filter (fun r => existsb (String.eqb (zm_zip_code_str r)) valid_zips) zip_df_city
  end.

End Matcher.

Arguments Boundary G : clear implicits.
Arguments CityRow : clear implicits.
Arguments MetroRecord G : clear implicits.
Arguments outcome G : clear implicits.
Arguments ZctaShape G : clear implicits.
Arguments ZipMerged G : clear implicits.

(** A regular-expression engine restricted to patterns without
    metacharacters, on which [re.search] is the substring test; any other
    pattern is rejected. *)
Definition metachars : string := ".^$*+?{}[]\|()".

Definition is_plain (pat : string) : bool :=
  forallb (fun c => negb (contains (String c "") metachars)) (list_ascii_of_string pat).

Definition plain_compile (pat : string) : option (string -> bool) :=
  if is_plain pat then Some (contains pat) else None.

(** what the matcher needs of the regular-expression engine: a pattern
    without metacharacters is searched for as a substring *)
Definition plain_patterns_ok (re_compile : string -> option (string -> bool)) : Prop :=
  forall pat, is_plain pat = true ->
  exists search, re_compile pat = Some search /\ forall s, search s = contains pat s.

(** a two-letter state code, as [upper] leaves it *)
Definition two_letters (s : string) : bool :=
  match s with
  | String a (String b EmptyString) => in_range 65 90 a && in_range 65 90 b
  | _ => false
  end.

End Geo.

(** ** Sample tables *)

Module Samples.

Import Geo.

(** boundaries with a number for a geometry *)
Definition boundary (name : string) (g : nat) (clat clon : Q) : Boundary nat :=
  mkBoundary name g (Fin clat) (Fin clon).

Definition washington_cbsa : Boundary nat :=
  boundary "Washington-Arlington-Alexandria, DC-VA-MD-WV" 1 (39 # 1) (-77 # 1).

End Samples.

(** ** geo_utils.py: locating the shapefiles *)

Module Paths.

Import PyStr.

Section ResolvePath.

(** [os.path.exists] *)
Variable path_exists : string -> bool.

Definition not_found_message (shp_path zip_path label : string) : string :=
  (label ++ ": Local shapefile not found. Expected at either "
   ++ "'" ++ shp_path ++ "' or '" ++ zip_path ++ "'.")%string.

(** [inl]: the path for [geopandas.read_file]; [inr]: the message of the
    RuntimeError raised. *)
Definition _resolve_shapefile_path (shp_path zip_path label : string)
  : string + string :=
  if truthy shp_path && path_exists shp_path then inl shp_path
  else if truthy zip_path && path_exists zip_path then inl ("zip://" ++ zip_path)%string
  else inr (not_found_message shp_path zip_path label).

End ResolvePath.

End Paths.

(** ** Derived keys of the loaders *)

Module Keys.

Import PyStr.

Fixpoint zeros (n : nat) : string :=
  match n with
  | O => EmptyString
  | S k => String "0" (zeros k)
  end.

Definition is_sign (c : ascii) : bool := Ascii.eqb c "+" || Ascii.eqb c "-".

(** [str.zfill(width)], which [Series.str.zfill] applies to each cell
    (pandas 1.5 and later): zeros on the left up to [width], after a
    leading sign. *)
Definition zfill (width : nat) (s : string) : string :=
  if (width <=? String.length s)%nat then s
  else
    let fill := zeros (width - String.length s) in
    match s with
    | String c s' => if is_sign c then String c (fill ++ s')%string else (fill ++ s)%string
    | EmptyString => fill
    end.

(** [sep.join(l)] *)
Fixpoint join (sep : string) (l : list string) : string :=
  match l with
  | [] => EmptyString
  | [x] => x
  | x :: l' => (x ++ sep ++ join sep l')%string
  end.

(** [s.replace(old, new)] for a non-empty [old] *)
Definition replace (old new s : string) : string := join new (split old s).

(** [str(n)] for a natural number and for an integer *)
Definition str_of_nat (n : nat) : string :=
  DecimalString.NilEmpty.string_of_uint (Nat.to_uint n).

Definition str_of_Z (z : Z) : string :=
  match z with
  | Z0 => "0"
  | Zpos p => str_of_nat (Pos.to_nat p)
  | Zneg p => String "-" (str_of_nat (Pos.to_nat p))
  end.

Definition is_digit (c : ascii) : bool := in_range 48 57 c.

(** load_zcta_shapes: [gdf["ZCTA5CE10"].astype(str).str.zfill(5)] *)
Definition zcta_zip_code_str (zcta5ce10 : string) : string := zfill 5 zcta5ce10.

(** _standardize_house_df: the ZIP as a nullable integer ([None] is <NA>),
    printed, with <NA> erased, padded to five characters. *)
Definition house_zip_code_str (zip_code : option Z) : string :=
  let printed := match zip_code with Some z => str_of_Z z | None => "<NA>" end in
  zfill 5 (replace "<NA>" "" printed).

(** _standardize_house_df: [df["city"].astype(str).str.lower().str.strip()] *)
Definition city_clean (city : string) : string := strip (lower city).

End Keys.

(** ** config_data.py: get_metro_yoy *)

Module MetroYoY.

Import Metric.

Definition metro_key (r : HouseRow) : string * string := (city r, city_full r).

Definition key_eqb (a b : string * string) : bool :=
  (fst a =? fst b) && (snd a =? snd b).

(** The result is a YoY table over the PTI rows or over the housing rows,
    according to the metric. *)
Definition get_metro_yoy (df_all_input : list HouseRow) (current_year : Z)
  (metric_type_input : string)
  : YoyTable PtiRow (string * string) + YoyTable HouseRow (string * string) :=
  if metric_type_input =? "Price-to-Income Ratio (PTI)" then
    let df_processed := compute_pti df_all_input in
    inl (compute_yoy (fun r => year (pti_house r)) (fun r => metro_key (pti_house r))
                     key_eqb PTI df_processed current_year)
  else
    let df_processed := filter (fun r => notna (median_sale_price r)) df_all_input in
    inr (compute_yoy year metro_key key_eqb median_sale_price df_processed current_year).

End MetroYoY.

(** ** charts.py: the tables behind the two maps *)

Module Charts.

Import Geo.

(** What a chart function returns as its table: nothing (the pair of
    [None]), an exception, or the table. *)
Inductive chart (T : Type) : Type :=
| NoChart
| ChartRaised
| Chart (table : T).

Arguments NoChart {T}.
Arguments ChartRaised {T}.
Arguments Chart {T} table.

(** [reset_index(drop=True)] and [df["id"] = df.index.astype(str)] *)
Definition with_ids {A : Type} (df : list A) : list (string * A) :=
  combine (map Keys.str_of_nat (seq 0 (List.length df))) df.

Section ChartTables.

Context {G : Type}.
Variable re_compile : string -> option (string -> bool).

(** create_city_choropleth, up to the table it returns: the matched and
    ranked metros with their ids. *)
Definition create_city_choropleth (df_city : list CityRow) (cbsa_gdf : list (Boundary G))
  : chart (list (string * Metric.Ranked (MetroRecord G))) :=
  match df_city with
  | [] => NoChart
  | _ =>
      let df_city := filter (fun r => notna (avg_metric_value r)) df_city in
      match df_city with
      | [] => NoChart
      | _ =>
          match build_city_cbsa_polygons re_compile df_city cbsa_gdf with
          | None => ChartRaised
          | Some [] => NoChart
          | Some city_polygons => Chart (with_ids city_polygons)
          end
      end
  end.

(** create_zip_choropleth, up to the table it returns: the rows with a
    metric value, with their ids, ranked. *)
Definition create_zip_choropleth (gdf : list (ZipMerged G))
  : chart (list (Metric.Ranked (string * ZipMerged G))) :=
  match gdf with
  | [] => NoChart
  | _ =>
      let gdf := filter (fun r => notna (mg_metric_value r)) gdf in
      match gdf with
      | [] => NoChart
      | _ =>
          match Metric.compute_rankings (fun r => mg_metric_value (snd r)) (with_ids gdf) with
          | None => ChartRaised
          | Some gdf => Chart gdf
          end
      end
  end.

(** the columns of the ZIP table that a click is decoded with *)
Definition zip_value (r : string * ZipMerged G) : xnum := mg_metric_value (snd r).

Definition chart_id (r : Metric.Ranked (string * ZipMerged G)) : string :=
  fst (Metric.ranked_row r).

Definition chart_zip (r : Metric.Ranked (string * ZipMerged G)) : string :=
  mg_zip_code_str (snd (Metric.ranked_row r)).

End ChartTables.

End Charts.

(** ** events.py: decoding a selection event *)

Module Events.

Section Decode.

(** [V] is the type of the values that a selection event carries and
    [py_str] is [str] on them; [R] is the row type of the table last
    rendered, with its columns [id] and [zip_code_str]. *)
Context {V R : Type}.
Variable py_str : V -> string.
Variable id_col : R -> string.
Variable zip_code_str_col : R -> string.

(** A clicked point.  [customdata] is [None] when the key is absent or the
    value is not a list or tuple. *)
Record Point : Type := mkPoint {
  customdata : option (list V);
  location : option V;
  point_index : option Z
}.

(** An event: [None] when the event or its selection is missing or falsy,
    otherwise the list [event.selection.points]. *)
Definition Event : Type := option (list Point).

Definition extract_city_from_event (event : Event) : option V :=
  match event with
  | Some (clicked_point :: _) =>
      match customdata clicked_point with
      | Some (c0 :: _) => Some c0
      | _ => None
      end
  | _ => None
  end.

(** What extract_zip_from_event does: return a ZIP, return [None], or
    raise IndexError from [iloc]. *)
Inductive zip_result : Type :=
| Zip (z : string)
| NoZip
| IndexError.

(** [gdf.iloc[i]] *)
Definition iloc (gdf : list R) (i : Z) : option R :=
  let n := Z.of_nat (List.length gdf) in
  if (0 <=? i)%Z then nth_error gdf (Z.to_nat i)
  else if (- n <=? i)%Z then nth_error gdf (Z.to_nat (n + i))
  else None.

Definition by_point_index (clicked_point : Point) (gdf_zip : option (list R))
  : zip_result :=
  match point_index clicked_point, gdf_zip with
  | Some point_idx, Some gdf =>
      if (point_idx <? Z.of_nat (List.length gdf))%Z then
        match iloc gdf point_idx with
        | Some row => Zip (zip_code_str_col row)
        | None => IndexError
        end
      else NoZip
  | _, _ => NoZip
  end.

Definition extract_zip_from_event (event : Event) (gdf_zip : option (list R))
  : zip_result :=
  match event with
  | Some (clicked_point :: _) =>
      match customdata clicked_point with
      | Some (c0 :: _) => Zip (py_str c0)
      | _ =>
          match location clicked_point, gdf_zip with
          | Some loc, Some gdf =>
              match filter (fun r => id_col r =? py_str loc) gdf with
              | row :: _ => Zip (zip_code_str_col row)
              | [] => by_point_index clicked_point gdf_zip
              end
          | _, _ => by_point_index clicked_point gdf_zip
          end
      end
  | _ => NoZip
  end.

End Decode.

Arguments Point V : clear implicits.
Arguments Event V : clear implicits.

End Events.

(** ** app.py: affordability bands and the selection state *)

Module Dashboard.

Import PyStr.

(** load_affordability_data: the label given to one Price_Income_Ratio
    (the body of the loop over ratio_agg; the label starts empty). *)
Definition affordability (ratio : xnum) : string :=
  if xleb (Fin 0) ratio && xltb ratio (Fin 3) then "Affordable"
  else if xleb (Fin 3) ratio && xltb ratio (Fin 4) then "Moderately Unaffordable"
  else if xleb (Fin 4) ratio && xltb ratio (Fin 5) then "Seriously Unaffordable"
  else if xleb (Fin 5) ratio && xltb ratio (Fin 9) then "Severly Unaffordable"
  else if xleb (Fin 9) ratio then "Impossibly Unaffordable"
  else "".

(** The three keys of [st.session_state]. *)
Record SessionState : Type := mkSessionState {
  view_mode : string;
  selected_city : option string;
  selected_zip : option string
}.

(** session state init *)
Definition init_state : SessionState := mkSessionState "city" None None.

(** truthiness of a value that is [None] or a string *)
Definition truthy_opt (v : option string) : bool :=
  match v with Some s => truthy s | None => false end.

Definition opt_eqb (a b : option string) : bool :=
  match a, b with
  | Some x, Some y => x =? y
  | None, None => true
  | _, _ => false
  end.

(** The places where a run of the script writes the session state. *)
Inductive ui_event : Type :=
| BackToAllMetros
| ViewZipCodes (city_match : string)
| MetroClick (clicked_city : option string)
| FirstZip (zip_code_str : string)
| ZipClick (clicked_zip : option string).

Definition step (st : SessionState) (ev : ui_event) : SessionState :=
  match ev with
  | BackToAllMetros =>
      if view_mode st =? "zip" then mkSessionState "city" None None else st
  | ViewZipCodes city_match =>
      if view_mode st =? "city" then mkSessionState "zip" (Some city_match) None else st
  | MetroClick clicked_city =>
      if (view_mode st =? "city")
         && truthy_opt clicked_city
         && negb (opt_eqb clicked_city (selected_city st))
      then mkSessionState "zip" clicked_city None
      else st
  | FirstZip z =>
      if negb (view_mode st =? "city") && truthy_opt (selected_city st) then
        match selected_zip st with
        | None => mkSessionState (view_mode st) (selected_city st) (Some z)
        | Some _ => st
        end
      else st
  | ZipClick clicked_zip =>
      if negb (view_mode st =? "city") && truthy_opt (selected_city st)
         && truthy_opt clicked_zip
      then mkSessionState (view_mode st) (selected_city st) clicked_zip
      else st
  end.

Definition run (events : list ui_event) : SessionState := fold_left step events init_state.

(** the two shapes of a session state: nothing selected in the metro view,
    a metro selected in the ZIP view *)
Definition state_ok (st : SessionState) : Prop :=
  (view_mode st = "city" /\ selected_city st = None /\ selected_zip st = None)
  \/ (view_mode st = "zip" /\ selected_city st <> None).

End Dashboard.

(** ** Notions used in the statements *)

(** the PTI of a housing record and the test that compute_pti keeps it *)
Definition pti_ratio (r : Metric.HouseRow) : xnum :=
  xdiv (Metric.median_sale_price r) (Metric.per_capita_income r).

Definition pti_kept (r : Metric.HouseRow) : bool :=
  Metric.pti_valid r && notna (pti_ratio r) && negb (Metric.pti_outlier (pti_ratio r)).

(** a finite value between two bounds *)
Definition within (lo hi : Q) (x : xnum) : Prop :=
  exists q, x = Fin q /\ (lo <= q)%Q /\ (q <= hi)%Q.

(** * Properties *)

(** ** Comparisons of floats *)

Section NumFacts.

Lemma Qltb_lt (x y : Q) : Qltb x y = true <-> (x < y)%Q.
Proof.
  unfold Qltb. rewrite negb_true_iff.
  split; intro H.
  - apply Qnot_le_lt. intro Hle. apply Qle_bool_iff in Hle. congruence.
  - destruct (Qle_bool y x) eqn:E; [|reflexivity].
    apply Qle_bool_iff in E. exfalso. exact (Qlt_not_le _ _ H E).
Qed.

Lemma Qltb_ge (x y : Q) : Qltb x y = false <-> (y <= x)%Q.
Proof.
  unfold Qltb. rewrite negb_false_iff. apply Qle_bool_iff.
Qed.

Lemma xltb_notna (a b : xnum) : xltb a b = true -> notna a = true /\ notna b = true.
Proof. destruct a, b; simpl; intuition congruence. Qed.

Lemma xleb_notna (a b : xnum) : xleb a b = true -> notna a = true /\ notna b = true.
Proof. destruct a, b; simpl; intuition congruence. Qed.

Lemma xltb_false_xleb (a b : xnum) :
  notna a = true -> notna b = true -> xltb a b = false -> xleb b a = true.
Proof.
  destruct a, b; simpl; try congruence; intros _ _ H.
  now apply Qle_bool_iff, Qltb_ge.
Qed.

Lemma xleb_xltb_false (a b : xnum) : xleb b a = true -> xltb a b = false.
Proof.
  destruct a, b; simpl; try congruence; intros H.
  now apply Qltb_ge, Qle_bool_iff.
Qed.

Lemma xltb_irrefl (a : xnum) : xltb a a = false.
Proof. destruct a; simpl; auto. apply Qltb_ge, Qle_refl. Qed.


Lemma xleb_trans (a b c : xnum) :
  xleb a b = true -> xleb b c = true -> xleb a c = true.
Proof.
  destruct a, b, c; simpl; try congruence.
  rewrite !Qle_bool_iff. apply Qle_trans.
Qed.

Lemma xleb_total (a b : xnum) :
  notna a = true -> notna b = true -> xleb a b = true \/ xleb b a = true.
Proof.
  destruct a, b; simpl; try congruence; auto.
  intros _ _. rewrite !Qle_bool_iff.
  destruct (Qlt_le_dec q q0); [left; now apply Qlt_le_weak | now right].
Qed.



Lemma xltb_xleb_trans (a b c : xnum) :
  xltb a b = true -> xleb b c = true -> xltb a c = true.
Proof.
  destruct a, b, c; simpl; try congruence.
  rewrite Qle_bool_iff, !Qltb_lt. apply Qlt_le_trans.
Qed.




End NumFacts.

(** ** compute_pti *)

Section PtiFacts.

Import Metric.

Lemma pti_outlier_band (p : xnum) :
  notna p = true ->
  (pti_outlier p = false <-> xleb (Fin (1 # 2)) p = true /\ xleb p (Fin 50) = true).
Proof.
  intros Hp. unfold pti_outlier. rewrite orb_false_iff. split.
  - intros [H1 H2]. split; apply xltb_false_xleb; auto.
  - intros [H1 H2]. split; apply xleb_xltb_false; auto.
Qed.

Lemma compute_pti_In (df : list HouseRow) (p : PtiRow) :
  In p (compute_pti df) <->
  In (pti_house p) df /\ pti_valid (pti_house p) = true
  /\ PTI p = xdiv (median_sale_price (pti_house p)) (per_capita_income (pti_house p))
  /\ notna (PTI p) = true /\ pti_outlier (PTI p) = false.
Proof.
  unfold compute_pti. rewrite filter_In, in_map_iff. split.
  - intros [[q [Hq Hin]] Hna].
    apply in_map_iff in Hin. destruct Hin as [r [Hr Hin]].
    apply filter_In in Hin. destruct Hin as [Hin Hv].
    subst q. simpl in Hq.
    destruct (pti_outlier (xdiv (median_sale_price r) (per_capita_income r))) eqn:E.
    + subst p. simpl in Hna. discriminate.
    + subst p. simpl in *. auto.
  - intros (Hin & Hv & Hp & Hna & Ho). split; [|assumption].
    exists (mkPtiRow (pti_house p) (PTI p)). split.
    + simpl. rewrite Ho. now destruct p.
    + apply in_map_iff. exists (pti_house p). split.
      * now rewrite <- Hp.
      * apply filter_In. auto.
Qed.

(** C5, as it is stated, fails at a ratio of exactly one half: the row
    with price 5000 and income 10000 is kept, and its PTI is not above 0.5. *)
Lemma compute_pti_keeps_one_half :
  let r := mkHouseRow "Akron" "Akron, OH" "44301" 2020 (Fin 5000) (Fin 10000) NaN NaN in
  compute_pti [r] = [mkPtiRow r (Fin (5000 # 10000))]
  /\ xeqb (Fin (5000 # 10000)) (Fin (1 # 2)) = true
  /\ xltb (Fin (1 # 2)) (Fin (5000 # 10000)) = false.
Proof. vm_compute. auto. Qed.

(** C5, amended: the rows of the output of compute_pti are exactly the
    input rows with a sale price above 0 and an income of at least 5000
    whose ratio price / income lies in the closed interval from 0.5 to 50,
    each carrying that ratio as its PTI; no other row appears, and no PTI
    is replaced by zero. *)
Theorem compute_pti_rows (df : list HouseRow) (p : PtiRow) :
  In p (compute_pti df) <->
  In (pti_house p) df
  /\ xltb (Fin 0) (median_sale_price (pti_house p)) = true
  /\ xleb (Fin 5000) (per_capita_income (pti_house p)) = true
  /\ PTI p = xdiv (median_sale_price (pti_house p)) (per_capita_income (pti_house p))
  /\ xleb (Fin (1 # 2)) (PTI p) = true
  /\ xleb (PTI p) (Fin 50) = true.
Proof.
  rewrite compute_pti_In. unfold pti_valid. split.
  - intros (Hin & Hv & Hp & Hna & Ho).
    apply pti_outlier_band in Ho; [|assumption].
    rewrite !andb_true_iff in Hv. intuition.
  - intros (Hin & Hpr & Hinc & Hp & Hlo & Hhi).
    destruct (xltb_notna _ _ Hpr) as [_ Hn1].
    destruct (xleb_notna _ _ Hinc) as [_ Hn2].
    destruct (xleb_notna _ _ Hlo) as [_ Hn3].
    rewrite Hn1, Hn2, Hpr, Hinc. simpl.
    repeat split; auto. apply pti_outlier_band; auto.
Qed.

End PtiFacts.

(** ** compute_rankings *)

Section RankingFacts.

Import Metric.

Context {A : Type}.
Variable value_col : A -> xnum.

Lemma filter_map_length {B C : Type} (f : B -> C) (p : C -> bool) (l : list B) :
  List.length (filter p (map f l)) = List.length (filter (fun x => p (f x)) l).
Proof.
  induction l as [|x l IH]; simpl; auto.
  destruct (p (f x)); simpl; auto.
Qed.

Lemma rank_desc_min_above (df : list A) (v : xnum) :
  notna v = true ->
  rank_desc_min (map value_col df) v = Some (rank_in value_col df v).
Proof.
  intros H. unfold rank_desc_min, rank_in, above. rewrite H.
  now rewrite filter_map_length.
Qed.

Lemma astype_int_ranks (df l : list A) :
  forallb (fun r => notna (value_col r)) l = true ->
  astype_int (map (rank_desc_min (map value_col df)) (map value_col l))
  = Some (map (fun r => rank_in value_col df (value_col r)) l).
Proof.
  induction l as [|x l IH]; simpl; auto.
  rewrite andb_true_iff. intros [Hx Hl].
  rewrite rank_desc_min_above by assumption.
  now rewrite IH.
Qed.

Lemma astype_int_nan (df l : list A) :
  forallb (fun r => notna (value_col r)) l = false ->
  astype_int (map (rank_desc_min (map value_col df)) (map value_col l)) = None.
Proof.
  induction l as [|x l IH]; simpl; [discriminate|].
  destruct (notna (value_col x)) eqn:Hx; simpl.
  - intros Hl. rewrite rank_desc_min_above by assumption. now rewrite IH.
  - intros _. unfold rank_desc_min. now rewrite Hx.
Qed.

Lemma combine_map_r {B C : Type} (f : B -> C) (l : list B) :
  combine l (map f l) = map (fun x => (x, f x)) l.
Proof. induction l; simpl; congruence. Qed.

(** compute_rankings raises exactly when a value is NaN; otherwise every
    row gets its rank, the row count and its percentile. *)
Lemma compute_rankings_eq (df : list A) :
  compute_rankings value_col df =
  if forallb (fun r => notna (value_col r)) df
  then Some (map (ranked_in value_col df) df)
  else None.
Proof.
  unfold compute_rankings.
  destruct (forallb (fun r => notna (value_col r)) df) eqn:E.
  - rewrite astype_int_ranks by assumption.
    rewrite combine_map_r, map_map. reflexivity.
  - now rewrite astype_int_nan.
Qed.

Lemma filter_length_lt {B : Type} (p : B -> bool) (l : list B) (w : B) :
  In w l -> p w = false -> (List.length (filter p l) < List.length l)%nat.
Proof.
  induction l as [|x l IH]; simpl; intros Hw Hp; [contradiction|].
  pose proof (filter_length_le p l).
  destruct Hw as [-> | Hw].
  - rewrite Hp. lia.
  - specialize (IH Hw Hp). destruct (p x); simpl; lia.
Qed.

(** a row is not above itself *)
Lemma above_lt (df : list A) (a : A) :
  In a df -> (above value_col df (value_col a) < List.length df)%nat.
Proof.
  intros Ha. unfold above. apply filter_length_lt with (w := a); auto.
  apply xltb_irrefl.
Qed.






Lemma filter_none {B : Type} (p : B -> bool) (l : list B) :
  (forall x, In x l -> p x = false) -> filter p l = [].
Proof.
  induction l as [|x l IH]; simpl; intros H; [reflexivity|].
  rewrite (H x (or_introl eq_refl)). apply IH. intros y Hy. apply H. now right.
Qed.

(** the largest value has rank 1 *)
Lemma rank_in_top (df : list A) (v : xnum) :
  (forall x, In x df -> xleb (value_col x) v = true) -> rank_in value_col df v = 1%Z.
Proof.
  intros H. unfold rank_in, above.
  rewrite filter_none; [reflexivity|].
  intros x Hx. apply xleb_xltb_false. now apply H.
Qed.


Lemma percentile_of_pos (total rk : Z) :
  (0 < total)%Z ->
  percentile_of total rk
  = Fin (round1 (inject_Z (total - rk + 1) / inject_Z total * 100)).
Proof.
  intros H. unfold percentile_of, of_Z. simpl.
  destruct (Qeq_bool (inject_Z total) 0) eqn:E; [|reflexivity].
  apply Qeq_bool_iff in E. unfold Qeq, inject_Z in E. simpl in E. lia.
Qed.



(** *** Reordering the rows *)

Lemma above_perm (df df' : list A) (v : xnum) :
  Permutation df df' -> above value_col df v = above value_col df' v.
Proof.
  intros H. unfold above. apply Permutation_length.
  induction H; simpl.
  - constructor.
  - destruct (xltb v (value_col x)); auto.
  - destruct (xltb v (value_col x)), (xltb v (value_col y)); auto using perm_swap.
  - eapply perm_trans; eauto.
Qed.

Lemma ranked_in_perm (df df' : list A) (r : A) :
  Permutation df df' -> ranked_in value_col df r = ranked_in value_col df' r.
Proof.
  intros H. unfold ranked_in, rank_in.
  now rewrite (above_perm df df' _ H), (Permutation_length H).
Qed.

Lemma forallb_perm {B : Type} (p : B -> bool) (l l' : list B) :
  Permutation l l' -> forallb p l = forallb p l'.
Proof.
  intros H. induction H; simpl; try congruence.
  now rewrite !andb_assoc, (andb_comm (p y) (p x)).
Qed.

(** C8: compute_rankings does not depend on the order of the rows.  For a
    table and any reordering of it, either both calls raise (a NaN value)
    or both return, the second result is the same reordering of the first,
    and a row has the same rank, rank_total and percentile in both. *)
Theorem compute_rankings_permutation (df df' : list A) :
  Permutation df df' ->
  match compute_rankings value_col df, compute_rankings value_col df' with
  | Some rs, Some rs' =>
      Permutation rs rs'
      /\ forall r r', In r rs -> In r' rs' -> ranked_row r = ranked_row r' ->
         rank r = rank r' /\ rank_total r = rank_total r'
         /\ percentile r = percentile r'
  | None, None => True
  | _, _ => False
  end.
Proof.
  intros H. rewrite !compute_rankings_eq.
  rewrite <- (forallb_perm _ _ _ H).
  destruct (forallb (fun r => notna (value_col r)) df); [|exact I].
  split.
  - rewrite (map_ext _ _ (fun r => ranked_in_perm df df' r H)).
    now apply Permutation_map.
  - intros r r' Hr Hr' Heq.
    apply in_map_iff in Hr. destruct Hr as [a [<- Ha]].
    apply in_map_iff in Hr'. destruct Hr' as [b [<- Hb]].
    simpl in Heq. subst b.
    rewrite (ranked_in_perm df df' a H). auto.
Qed.

End RankingFacts.

Lemma compute_rankings_permutation_witness :
  Permutation [Fin 10; Fin 30; Fin 30] [Fin 30; Fin 10; Fin 30]
  /\ match Metric.compute_rankings (fun x : xnum => x) [Fin 10; Fin 30; Fin 30],
           Metric.compute_rankings (fun x : xnum => x) [Fin 30; Fin 10; Fin 30] with
     | Some rs, Some rs' =>
         Permutation rs rs'
         /\ forall r r', In r rs -> In r' rs' -> Metric.ranked_row r = Metric.ranked_row r' ->
            Metric.rank r = Metric.rank r' /\ Metric.rank_total r = Metric.rank_total r'
            /\ Metric.percentile r = Metric.percentile r'
     | None, None => True
     | _, _ => False
     end.
Proof.
  split.
  - apply perm_swap.
  - apply (compute_rankings_permutation (fun x : xnum => x)). apply perm_swap.
Defined.

(** ** compute_yoy *)

Section YoYFacts.

Import Metric.

Context {A K : Type}.
Variable year_col : A -> Z.
Variable group_cols : A -> K.
Variable keqb : K -> K -> bool.
Variable value_col : A -> xnum.
Hypothesis keqb_spec : forall a b, keqb a b = true <-> a = b.

Lemma existsb_keqb (k : K) (seen : list K) :
  existsb (keqb k) seen = true <-> In k seen.
Proof.
  rewrite existsb_exists. split.
  - intros [x [Hx He]]. apply keqb_spec in He. now subst.
  - intros H. exists k. split; auto. now apply keqb_spec.
Qed.

Lemma group_keys_sound (df : list A) : forall seen k,
  In k (group_keys group_cols keqb seen df) ->
  exists r, In r df /\ group_cols r = k.
Proof.
  induction df as [|r df IH]; simpl; intros seen k Hk; [contradiction|].
  destruct (existsb (keqb (group_cols r)) seen).
  - destruct (IH _ _ Hk) as [r' [Hr' He]]. eauto.
  - destruct Hk as [<- | Hk]; [eauto|].
    destruct (IH _ _ Hk) as [r' [Hr' He]]. eauto.
Qed.

Lemma group_keys_complete (df : list A) : forall seen r,
  In r df ->
  In (group_cols r) seen \/ In (group_cols r) (group_keys group_cols keqb seen df).
Proof.
  induction df as [|r0 df IH]; simpl; intros seen r Hr; [contradiction|].
  destruct (existsb (keqb (group_cols r0)) seen) eqn:E.
  - destruct Hr as [-> | Hr]; [left; now apply existsb_keqb | now apply IH].
  - destruct Hr as [-> | Hr]; [right; now left|].
    destruct (IH (group_cols r0 :: seen) r Hr) as [[H | H] | H].
    + right. left. assumption.
    + now left.
    + right. now right.
Qed.

Lemma merge_left_group_mean (prev : list A) (c : AggRow K) :
  merge_left keqb (groupby_mean group_cols keqb value_col prev) c
  = group_mean group_cols keqb value_col prev (agg_key c).
Proof.
  unfold merge_left, groupby_mean.
  destruct (find _ _) as [p|] eqn:E.
  - apply find_some in E. destruct E as [Hin He].
    apply keqb_spec in He. apply in_map_iff in Hin.
    destruct Hin as [k [<- _]]. simpl in *. now subst.
  - unfold group_mean.
    rewrite (filter_none (fun r => keqb (group_cols r) (agg_key c))); [reflexivity|].
    intros r Hr. destruct (keqb (group_cols r) (agg_key c)) eqn:Hk; [|reflexivity].
    destruct (group_keys_complete prev [] r Hr) as [[] | Hin].
    rewrite <- Hk.
    apply (find_none _ _ E (mkAggRow (group_cols r)
             (group_mean group_cols keqb value_col prev (group_cols r)))).
    apply in_map_iff. eauto.
Qed.

Lemma pct_of_prev_nan (c : xnum) : pct_of c NaN = NaN.
Proof. now destruct c. Qed.

Lemma Qeq_bool_false (q : Q) : ~ (q == 0)%Q -> Qeq_bool q 0 = false.
Proof.
  intros H. destruct (Qeq_bool q 0) eqn:E; [|reflexivity].
  apply Qeq_bool_iff in E. contradiction.
Qed.

Lemma pct_of_finite (x q : Q) :
  ~ (q == 0)%Q -> pct_of (Fin x) (Fin q) = Fin (round1 ((x - q) / q * 100)).
Proof.
  intros H. unfold pct_of. simpl. now rewrite Qeq_bool_false.
Qed.






End YoYFacts.

Section YoYExamples.

Import Metric.



End YoYExamples.

(** ** Strings *)

Section StringFacts.

Import PyStr.

Example lower_seattle : lower "Seattle, WA" = "seattle, wa".
Proof. reflexivity. Qed.

Example strip_label : strip "  St. Louis , MO  " = "St. Louis , MO".
Proof. reflexivity. Qed.

Example split_comma : split "," "Seattle, WA" = ["Seattle"; " WA"].
Proof. reflexivity. Qed.

Example split_en_dash : split "–" "a–b–" = ["a"; "b"; ""].
Proof. reflexivity. Qed.

Example contains_empty : contains "wa" "seattle, wa" = true /\ contains "" "" = true.
Proof. split; reflexivity. Qed.

Lemma reverse_involutive (s : string) : reverse (reverse s) = s.
Proof.
  unfold reverse.
  now rewrite list_ascii_of_string_of_list_ascii, rev_involutive,
    string_of_list_ascii_of_string.
Qed.

Lemma reverse_snoc (y : string) (c : ascii) :
  reverse (y ++ String c "")%string = String c (reverse y).
Proof.
  unfold reverse.
  assert (H : list_ascii_of_string (y ++ String c "")%string
              = (list_ascii_of_string y ++ [c])%list).
  { induction y as [|a y IH]; simpl; congruence. }
  rewrite H, rev_app_distr. reflexivity.
Qed.

Lemma reverse_cons (c : ascii) (t : string) :
  reverse (String c t) = (reverse t ++ String c "")%string.
Proof.
  rewrite <- (reverse_involutive (reverse t ++ String c "")%string).
  now rewrite reverse_snoc, reverse_involutive.
Qed.

Lemma lstrip_idem (s : string) : lstrip (lstrip s) = lstrip s.
Proof.
  induction s as [|c s IH]; simpl; [reflexivity|].
  destruct (is_space c) eqn:E; [assumption|]. simpl. now rewrite E.
Qed.

Lemma lstrip_snoc (c : ascii) (x : string) :
  is_space c = false -> exists y, lstrip (x ++ String c "")%string = (y ++ String c "")%string.
Proof.
  intros Hc. induction x as [|a x IH]; simpl.
  - rewrite Hc. now exists "".
  - destruct (is_space a); [assumption|]. now exists (String a x).
Qed.

(** [rstrip] keeps a first character that is not white space *)
Lemma rstrip_head (c : ascii) (t : string) :
  is_space c = false -> exists t', rstrip (String c t) = String c t'.
Proof.
  intros Hc. unfold rstrip. rewrite reverse_cons.
  destruct (lstrip_snoc c (reverse t) Hc) as [y Hy].
  rewrite Hy, reverse_snoc. eauto.
Qed.

Lemma rstrip_idem (s : string) : rstrip (rstrip s) = rstrip s.
Proof. unfold rstrip. now rewrite reverse_involutive, lstrip_idem. Qed.

Lemma lstrip_head (s : string) :
  lstrip s = "" \/ exists c t, lstrip s = String c t /\ is_space c = false.
Proof.
  induction s as [|c s IH]; simpl; [now left|].
  destruct (is_space c) eqn:E; [assumption|]. right. eauto.
Qed.

Lemma strip_idem (s : string) : strip (strip s) = strip s.
Proof.
  unfold strip.
  destruct (lstrip_head s) as [H | [c [t [H Hc]]]]; rewrite H.
  - reflexivity.
  - destruct (rstrip_head c t Hc) as [t' Ht'].
    assert (Hl : lstrip (rstrip (String c t)) = rstrip (String c t)).
    { rewrite Ht'. simpl. now rewrite Hc. }
    rewrite Hl. apply rstrip_idem.
Qed.

Lemma truthy_true (s : string) : truthy s = true <-> s <> "".
Proof.
  unfold truthy. rewrite negb_true_iff. split.
  - intros H ->. discriminate.
  - intros H. destruct s; [congruence | reflexivity].
Qed.

Lemma py_or_truthy (a b : string) : truthy a = true -> py_or a b = a.
Proof. intros H. unfold py_or. now rewrite H. Qed.

End StringFacts.

(** ** The matcher *)

Section MatcherFacts.

Import PyStr Geo.

Context {G : Type}.

Lemma key_le_refl (a : xnum) : key_le a a = true.
Proof. destruct a; simpl; auto. apply Qle_bool_iff, Qle_refl. Qed.

Lemma key_le_total (a b : xnum) : key_le a b = true \/ key_le b a = true.
Proof.
  destruct a, b; simpl; auto.
  rewrite !Qle_bool_iff.
  destruct (Qlt_le_dec q q0); [left; now apply Qlt_le_weak | now right].
Qed.

Lemma key_le_trans (a b c : xnum) :
  key_le a b = true -> key_le b c = true -> key_le a c = true.
Proof.
  destruct a, b, c; simpl; try congruence.
  rewrite !Qle_bool_iff. apply Qle_trans.
Qed.

Lemma key_le_xleb (a b : xnum) :
  key_le a b = true -> notna b = true -> xleb a b = true.
Proof. destruct a, b; simpl; congruence. Qed.

Section Sorting.

Variable key : Boundary G -> xnum.

Lemma insert_by_In (x : Boundary G) (l : list (Boundary G)) (b : Boundary G) :
  In b (insert_by key x l) <-> b = x \/ In b l.
Proof.
  induction l as [|y l IH]; simpl.
  - intuition.
  - destruct (key_le (key x) (key y)); simpl; [intuition|].
    rewrite IH. intuition.
Qed.

Lemma sort_values_In (l : list (Boundary G)) (b : Boundary G) :
  In b (sort_values key l) <-> In b l.
Proof.
  induction l as [|x l IH]; simpl; [reflexivity|].
  rewrite insert_by_In, IH. intuition.
Qed.

Lemma sort_values_perm (l : list (Boundary G)) : Permutation (sort_values key l) l.
Proof.
  induction l as [|x l IH]; simpl; [constructor|].
  apply perm_trans with (x :: sort_values key l); [|now constructor].
  generalize (sort_values key l). clear. intros s.
  induction s as [|y s IH]; simpl; [apply Permutation_refl|].
  destruct (key_le (key x) (key y)); [apply Permutation_refl|].
  apply perm_trans with (y :: x :: s); [now constructor | apply perm_swap].
Qed.

(** the first row of a sorted, non-empty table is a least one *)
Lemma sort_values_hd (d x : Boundary G) (l : list (Boundary G)) :
  let b := hd d (sort_values key (x :: l)) in
  In b (x :: l) /\ forall c, In c (x :: l) -> key_le (key b) (key c) = true.
Proof.
  revert x. induction l as [|y l IH]; intros x.
  - simpl. split; [now left|]. intros c [<- | []]. apply key_le_refl.
  - specialize (IH y). cbv zeta in IH. destruct IH as [Hin Hmin].
    change (sort_values key (x :: y :: l))
      with (insert_by key x (sort_values key (y :: l))).
    destruct (sort_values key (y :: l)) as [|z s] eqn:E.
    { pose proof (Permutation_length (sort_values_perm (y :: l))) as Hl.
      rewrite E in Hl. discriminate. }
    simpl in Hin, Hmin. cbv zeta. simpl.
    destruct (key_le (key x) (key z)) eqn:Hxz; simpl.
    + split; [now left|]. intros c [<- | Hc]; [apply key_le_refl|].
      eapply key_le_trans; [exact Hxz|]. now apply Hmin.
    + split; [now right|]. intros c [<- | Hc]; [|now apply Hmin].
      destruct (key_le_total (key x) (key z)); congruence.
Qed.

End Sorting.

Lemma pick_best_In (c0 : Boundary G) (rest : list (Boundary G)) (lat0 lon0 : xnum) :
  In (pick_best c0 rest lat0 lon0) (c0 :: rest).
Proof.
  unfold pick_best.
  destruct ((1 <? List.length (c0 :: rest))%nat && isfinite lat0 && isfinite lon0).
  - apply (sort_values_hd (dist2 lat0 lon0) c0 c0 rest).
  - now left.
Qed.

Lemma pick_best_first (c0 : Boundary G) (rest : list (Boundary G)) (lat0 lon0 : xnum) :
  rest = [] \/ isfinite lat0 = false \/ isfinite lon0 = false ->
  pick_best c0 rest lat0 lon0 = c0.
Proof.
  unfold pick_best. intros [-> | [H | H]].
  - reflexivity.
  - rewrite H, andb_false_r. reflexivity.
  - rewrite H, andb_false_r. reflexivity.
Qed.

Lemma pick_best_min (c0 : Boundary G) (rest : list (Boundary G)) (lat0 lon0 : xnum) :
  rest <> [] -> isfinite lat0 = true -> isfinite lon0 = true ->
  forall c, In c (c0 :: rest) ->
  key_le (dist2 lat0 lon0 (pick_best c0 rest lat0 lon0)) (dist2 lat0 lon0 c) = true.
Proof.
  intros Hr Hla Hlo. unfold pick_best. rewrite Hla, Hlo.
  destruct rest as [|c1 rest]; [congruence|]. simpl andb. cbv iota.
  apply (sort_values_hd (dist2 lat0 lon0) c0 c0 (c1 :: rest)).
Qed.

End MatcherFacts.

Section MatcherClaims.

Import PyStr Geo.

Context {G : Type}.
Variable re_compile : string -> option (string -> bool).

Lemma match_row_unfold (cbsa : list (Boundary G)) (row : CityRow) :
  truthy (row_city_full row) = true ->
  match_row re_compile cbsa row =
  match manual_matches cbsa (city row) (row_city_full row) with
  | best :: _ => Matched best
  | [] => string_stages re_compile cbsa (city row) (row_city_full row) (lat row) (lon row)
  end.
Proof. intros H. unfold match_row. now rewrite H. Qed.

(** C1: a row with a non-empty label goes through the stages in the order
    manual override, exact name, containment, tokens, and the first stage
    with a candidate decides.  A manual match is taken whatever the other
    stages would find.  Without one, a non-empty exact stage decides: the
    boundary chosen has the label as its lowercased name, and the outcome
    is the same for every regular-expression engine, so the containment
    search is not run.  With no exact match, a non-empty containment stage
    decides and the token stage is not run; only when containment finds
    nothing does the outcome come from the token stage. *)
Theorem match_row_stage_order (cbsa : list (Boundary G)) (row : CityRow) :
  truthy (row_city_full row) = true ->
  let cf := row_city_full row in
  (forall best ms, manual_matches cbsa (city row) cf = best :: ms ->
     match_row re_compile cbsa row = Matched best)
  /\ (manual_matches cbsa (city row) cf = [] ->
      (forall e0 es, exact_matches cbsa cf = e0 :: es ->
         match_row re_compile cbsa row = Matched (pick_best e0 es (lat row) (lon row))
         /\ In (pick_best e0 es (lat row) (lon row)) (exact_matches cbsa cf)
         /\ name_lower (pick_best e0 es (lat row) (lon row)) = lower cf
         /\ forall re', match_row re' cbsa row = match_row re_compile cbsa row)
      /\ (exact_matches cbsa cf = [] ->
          (forall c0 cs, contains_matches re_compile cbsa cf = Some (c0 :: cs) ->
             match_row re_compile cbsa row
             = Matched (pick_best c0 cs (lat row) (lon row)))
          /\ (contains_matches re_compile cbsa cf = Some [] ->
              match_row re_compile cbsa row
              = match fuzzy_matches re_compile cbsa (city row) cf with
                | None => Raised
                | Some [] => Dropped
                | Some (f0 :: fs) => Matched (pick_best f0 fs (lat row) (lon row))
                end)
          /\ (contains_matches re_compile cbsa cf = None ->
              match_row re_compile cbsa row = Raised))).
Proof.
  intros Ht cf. split.
  - intros best ms Hm. rewrite match_row_unfold by assumption. fold cf. now rewrite Hm.
  - intros Hm. split.
    + intros e0 es He.
      assert (Hall : forall re', match_row re' cbsa row
                                 = Matched (pick_best e0 es (lat row) (lon row))).
      { intros re'. unfold match_row. rewrite Ht. fold cf. rewrite Hm.
        unfold string_stages, string_candidates, exact_or_contains. now rewrite He. }
      split; [apply Hall|].
      assert (Hin : In (pick_best e0 es (lat row) (lon row)) (exact_matches cbsa cf)).
      { rewrite He. apply pick_best_In. }
      split; [exact Hin|]. split.
      * unfold exact_matches in Hin. apply filter_In in Hin.
        destruct Hin as [_ Hin]. now apply String.eqb_eq in Hin.
      * intros re'. now rewrite !Hall.
    + intros He.
      rewrite match_row_unfold by assumption. fold cf. rewrite Hm.
      unfold string_stages, string_candidates, exact_or_contains. rewrite He.
      split; [|split].
      * intros c0 cs Hc. now rewrite Hc.
      * intros Hc. rewrite Hc. reflexivity.
      * intros Hc. now rewrite Hc.
Qed.

(** C10: when the manual stage names a boundary that the table does not
    contain, the row is not dropped there: its outcome is that of the
    exact, containment and token stages. *)
Theorem manual_name_absent_falls_through (cbsa : list (Boundary G)) (row : CityRow)
  (name : string) :
  truthy (row_city_full row) = true ->
  resolve_manual_cbsa_name (city row) (row_city_full row) = Some name ->
  (forall b, In b cbsa -> NAME b <> name) ->
  manual_matches cbsa (city row) (row_city_full row) = []
  /\ match_row re_compile cbsa row
     = string_stages re_compile cbsa (city row) (row_city_full row) (lat row) (lon row).
Proof.
  intros Ht Hn Habs.
  assert (Hm : manual_matches cbsa (city row) (row_city_full row) = []).
  { unfold manual_matches. rewrite Hn.
    destruct (truthy name); [|reflexivity].
    apply filter_none. intros b Hb.
    destruct (NAME b =? name) eqn:E; [|reflexivity].
    apply String.eqb_eq in E. destruct (Habs b Hb E). }
  split; [exact Hm|].
  rewrite match_row_unfold by assumption. now rewrite Hm.
Qed.

(** C4: when the string stages leave the candidates c0 :: rest for a row
    without a manual match, the row is matched to one of them.  With more
    than one candidate and a finite latitude and longitude, the boundary
    chosen has the least squared distance in degrees from its centroid to
    the point of the row (in the order of the sort, undefined distances
    last); with a single candidate, or a latitude or longitude that is
    not finite, it is the first candidate. *)
Theorem match_row_tie_break (cbsa : list (Boundary G)) (row : CityRow)
  (c0 : Boundary G) (rest : list (Boundary G)) :
  truthy (row_city_full row) = true ->
  manual_matches cbsa (city row) (row_city_full row) = [] ->
  string_candidates re_compile cbsa (city row) (row_city_full row) = Some (c0 :: rest) ->
  exists best,
    match_row re_compile cbsa row = Matched best
    /\ In best (c0 :: rest)
    /\ (rest <> [] -> isfinite (lat row) = true -> isfinite (lon row) = true ->
        forall c, In c (c0 :: rest) ->
        key_le (dist2 (lat row) (lon row) best) (dist2 (lat row) (lon row) c) = true
        /\ (notna (dist2 (lat row) (lon row) c) = true ->
            xleb (dist2 (lat row) (lon row) best) (dist2 (lat row) (lon row) c) = true))
    /\ (rest = [] \/ isfinite (lat row) = false \/ isfinite (lon row) = false ->
        best = c0)
    /\ (forall (c : Boundary G) la lo a b, lat row = Fin la -> lon row = Fin lo ->
        centroid_lat c = Fin a -> centroid_lon c = Fin b ->
        dist2 (lat row) (lon row) c
        = Fin ((a - la) * (a - la) + (b - lo) * (b - lo))).
Proof.
  intros Ht Hm Hc. exists (pick_best c0 rest (lat row) (lon row)).
  split.
  { rewrite match_row_unfold by assumption. rewrite Hm.
    unfold string_stages. now rewrite Hc. }
  split; [apply pick_best_In|].
  split.
  { intros Hr Hla Hlo c Hin.
    pose proof (pick_best_min c0 rest _ _ Hr Hla Hlo c Hin) as Hle.
    split; [exact Hle|]. intros Hna. now apply key_le_xleb. }
  split; [apply pick_best_first|].
  intros c la lo a b Hla Hlo Ha Hb. unfold dist2. rewrite Hla, Hlo, Ha, Hb. reflexivity.
Qed.

End MatcherClaims.

Section FuzzyClaims.

Import PyStr Geo.

Lemma plain_compile_ok : plain_patterns_ok plain_compile.
Proof.
  intros pat H. unfold plain_compile. rewrite H. eauto.
Qed.

Lemma letter_plain (a : ascii) :
  in_range 65 90 a = true -> negb (contains (String a "") metachars) = true.
Proof.
  destruct a as [[] [] [] [] [] [] [] []]; vm_compute; congruence.
Qed.

Lemma two_letters_plain (s : string) : two_letters s = true -> is_plain s = true.
Proof.
  destruct s as [|a [|b [|c s]]]; cbn [two_letters]; try discriminate.
  rewrite andb_true_iff. intros [Ha Hb].
  unfold is_plain. cbn [list_ascii_of_string forallb].
  now rewrite (letter_plain a Ha), (letter_plain b Hb).
Qed.

Lemma two_letters_truthy (s : string) : two_letters s = true -> truthy s = true.
Proof. destruct s; [discriminate | reflexivity]. Qed.

Lemma existsb_false_filter {B : Type} (p : B -> bool) (l : list B) :
  existsb p l = false -> filter p l = [].
Proof.
  induction l as [|x l IH]; simpl; [reflexivity|].
  rewrite orb_false_iff. intros [Hx Hl]. rewrite Hx. auto.
Qed.

Context {G : Type}.
Variable re_compile : string -> option (string -> bool).

(** C2, amended: in the token stage, for a label that yields a two-letter
    state code and whose tokens occur in at least one boundary name, the
    candidates are the token-matched boundaries whose uppercased name
    contains the state code; when there is none, the stage yields no
    candidate (there is no return to the token-matched set) and a row
    that reached the stage is dropped. *)
Theorem fuzzy_state_restriction (cbsa : list (Boundary G)) (city city_full : string)
  (city_base state_abbrev : string) :
  plain_patterns_ok re_compile ->
  parse_city_state city city_full = (city_base, state_abbrev) ->
  two_letters state_abbrev = true ->
  existsb (base_mask (build_city_tokens city_base)) cbsa = true ->
  let restricted :=
    filter (fun b => base_mask (build_city_tokens city_base) b
                     && contains state_abbrev (name_upper b)) cbsa in
  fuzzy_matches re_compile cbsa city city_full = Some restricted
  /\ (restricted = [] ->
      exact_or_contains re_compile cbsa city_full = Some [] ->
      forall lat0 lon0,
      string_stages re_compile cbsa city city_full lat0 lon0 = Dropped).
Proof.
  intros Hre Hp Hst Hany restricted.
  assert (Hf : fuzzy_matches re_compile cbsa city city_full = Some restricted).
  { unfold fuzzy_matches. rewrite Hp.
    destruct (build_city_tokens city_base) as [|t ts] eqn:Et.
    { exfalso. clear - Hany. induction cbsa; simpl in *; congruence. }
    rewrite Hany, (two_letters_truthy _ Hst).
    destruct (Hre state_abbrev (two_letters_plain _ Hst)) as [search [Hs Hsearch]].
    rewrite Hs.
    assert (Hext : filter (fun b => base_mask (t :: ts) b && search (name_upper b)) cbsa
                   = restricted).
    { unfold restricted. apply filter_ext. intros b. now rewrite Hsearch. }
    destruct (existsb (fun b => base_mask (t :: ts) b && search (name_upper b)) cbsa)
      eqn:Em.
    - now rewrite Hext.
    - apply existsb_false_filter in Em. rewrite Hext in Em. now rewrite Em. }
  split; [exact Hf|].
  intros Hnil Hec lat0 lon0.
  unfold string_stages, string_candidates. rewrite Hec, Hf, Hnil. reflexivity.
Qed.

(** C3, amended: a row whose label, stripped and lowercased, is the key
    dc_metro of the manual table (the label DC_Metro) is matched, when the
    table has a boundary named Washington-Arlington-Alexandria,
    DC-VA-MD-WV, to the first boundary of that name, whatever the exact,
    containment and token stages would find and whatever the
    regular-expression engine does. *)
Theorem dc_metro_manual_override (cbsa : list (Boundary G)) (row : CityRow)
  (b : Boundary G) :
  lower (row_city_full row) = "dc_metro" ->
  In b cbsa ->
  NAME b = "Washington-Arlington-Alexandria, DC-VA-MD-WV" ->
  resolve_manual_cbsa_name (city row) (row_city_full row)
  = Some "Washington-Arlington-Alexandria, DC-VA-MD-WV"
  /\ exists best others,
       filter (fun b => NAME b =? "Washington-Arlington-Alexandria, DC-VA-MD-WV") cbsa
       = best :: others
       /\ match_row re_compile cbsa row = Matched best
       /\ NAME best = "Washington-Arlington-Alexandria, DC-VA-MD-WV".
Proof.
  intros Hkey Hin Hname.
  assert (Ht : truthy (row_city_full row) = true).
  { apply truthy_true. intros E. rewrite E in Hkey. discriminate. }
  assert (Hres : resolve_manual_cbsa_name (city row) (row_city_full row)
                 = Some "Washington-Arlington-Alexandria, DC-VA-MD-WV").
  { unfold resolve_manual_cbsa_name.
    rewrite (py_or_truthy (row_city_full row) (city row) Ht).
    rewrite (py_or_truthy (row_city_full row) "" Ht).
    unfold row_city_full at 1. rewrite strip_idem. fold (row_city_full row).
    rewrite Hkey. reflexivity. }
  split; [exact Hres|].
  destruct (filter (fun b => NAME b =? "Washington-Arlington-Alexandria, DC-VA-MD-WV") cbsa)
    as [|best others] eqn:Ef.
  - exfalso. assert (Hb : In b []).
    { rewrite <- Ef. apply filter_In. split; [assumption|]. now apply String.eqb_eq. }
    destruct Hb.
  - exists best, others. split; [reflexivity|].
    assert (Hbest : In best (best :: others)) by now left.
    rewrite <- Ef in Hbest. apply filter_In in Hbest. destruct Hbest as [_ Hbest].
    apply String.eqb_eq in Hbest. split; [|exact Hbest].
    rewrite match_row_unfold by assumption.
    unfold manual_matches. rewrite Hres. cbn [truthy String.eqb negb].
    now rewrite Ef.
Qed.

End FuzzyClaims.

(** ** The ZIP filter *)

Section ZipFacts.

Import PyStr Geo.

Context {G : Type}.

Lemma same_cell_refl (a : xnum) : same_cell a a = true.
Proof.
  destruct a; simpl; auto. apply Qeq_bool_iff. reflexivity.
Qed.

Lemma small_eqb_refl (x : ZipSmall) : small_eqb x x = true.
Proof.
  destruct x as [[z m] f]. simpl.
  now rewrite !String.eqb_refl, same_cell_refl.
Qed.

Lemma small_eqb_zip (x y : ZipSmall) : small_eqb x y = true -> fst (fst x) = fst (fst y).
Proof.
  destruct x as [[z m] f], y as [[z' m'] f']. simpl.
  rewrite !andb_true_iff. intros [[H _] _]. now apply String.eqb_eq.
Qed.

Lemma drop_duplicates_sound (l : list ZipSmall) : forall seen x,
  In x (drop_duplicates seen l) -> In x l.
Proof.
  induction l as [|a l IH]; simpl; intros seen x Hx; [assumption|].
  destruct (existsb (small_eqb a) seen).
  - right. eapply IH; eauto.
  - destruct Hx as [<- | Hx]; [now left | right; eapply IH; eauto].
Qed.

Lemma drop_duplicates_complete (l : list ZipSmall) : forall seen x,
  In x l ->
  (exists y, In y seen /\ small_eqb x y = true)
  \/ (exists y, In y (drop_duplicates seen l) /\ small_eqb x y = true).
Proof.
  induction l as [|a l IH]; simpl; intros seen x Hx; [contradiction|].
  destruct (existsb (small_eqb a) seen) eqn:E.
  - destruct Hx as [<- | Hx]; [|now apply IH].
    left. apply existsb_exists in E. exact E.
  - destruct Hx as [<- | Hx].
    + right. exists a. split; [now left | apply small_eqb_refl].
    + destruct (IH (a :: seen) x Hx) as [[y [[<- | Hy] He]] | [y [Hy He]]].
      * right. exists a. split; [now left | assumption].
      * left. eauto.
      * right. exists y. split; [now right | assumption].
Qed.

Lemma merge_inner_In (left : list (ZctaShape G)) (right : list ZipSmall) (m : ZipMerged G) :
  In m (merge_inner left right) <->
  exists s y, In s left /\ In y right /\ fst (fst y) = zs_zip_code_str s
              /\ m = mkZipMerged (zs_zip_code_str s) (zs_geometry s) (snd (fst y)) (snd y).
Proof.
  unfold merge_inner. rewrite in_flat_map. split.
  - intros [s [Hs Hm]]. apply in_map_iff in Hm. destruct Hm as [[[z v] f] [<- Hy]].
    apply filter_In in Hy. destruct Hy as [Hy He]. apply String.eqb_eq in He.
    exists s, (z, v, f). auto.
  - intros [s [[[z v] f] [Hs [Hy [He ->]]]]]. exists s. split; [assumption|].
    apply in_map_iff. exists (z, v, f). split; [reflexivity|].
    apply filter_In. split; [assumption|]. now apply String.eqb_eq.
Qed.

Lemma merge_inner_nil (left : list (ZctaShape G)) : merge_inner left [] = [].
Proof. unfold merge_inner. induction left; simpl; auto. Qed.

Lemma get_zip_polygons_for_metro_eq (selected_city : string)
  (zcta : list (ZctaShape G)) (df : list ZipMetricRow) :
  get_zip_polygons_for_metro selected_city zcta df
  = (zip_rows_of selected_city df,
     merge_inner zcta (zip_small_of (zip_rows_of selected_city df))).
Proof.
  unfold get_zip_polygons_for_metro. fold (zip_rows_of selected_city df).
  destruct (zip_rows_of selected_city df) eqn:E; [|reflexivity].
  unfold zip_small_of. simpl. now rewrite merge_inner_nil.
Qed.

Lemma zip_rows_of_In (selected_city : string) (df : list ZipMetricRow) (r : ZipMetricRow) :
  In r (zip_rows_of selected_city df) <->
  In r df /\ zm_city r = selected_city /\ notna (zm_metric_value r) = true.
Proof.
  unfold zip_rows_of. rewrite !filter_In, String.eqb_eq. intuition.
Qed.

(** a ZIP of the selected rows is in the merged table exactly when it has a
    boundary *)
Lemma merged_zip_iff (zcta : list (ZctaShape G)) (rows : list ZipMetricRow)
  (r : ZipMetricRow) :
  In r rows ->
  (exists m, In m (merge_inner zcta (zip_small_of rows))
             /\ mg_zip_code_str m = zm_zip_code_str r)
  <-> exists s, In s zcta /\ zs_zip_code_str s = zm_zip_code_str r.
Proof.
  intros Hr. split.
  - intros [m [Hm He]]. apply merge_inner_In in Hm.
    destruct Hm as [s [y [Hs [_ [_ ->]]]]]. simpl in He. eauto.
  - intros [s [Hs He]].
    destruct (drop_duplicates_complete
                (map (fun r => (zm_zip_code_str r, zm_metric_value r, zm_city_full r)) rows)
                [] (zm_zip_code_str r, zm_metric_value r, zm_city_full r))
      as [[y [[] _]] | [y [Hy Hey]]].
    { apply in_map_iff. eauto. }
    apply small_eqb_zip in Hey. simpl in Hey.
    exists (mkZipMerged (zs_zip_code_str s) (zs_geometry s) (snd (fst y)) (snd y)).
    split; [|simpl; assumption].
    apply merge_inner_In. exists s, y. repeat split; auto. congruence.
Qed.

(** C9: for a selected metro without a ZIP row that has a metric value,
    the filter returns two empty tables and the ZIP view is empty; no case
    raises.  In general the first table holds exactly the rows of the
    metro with a defined metric value; every row of the merged table joins
    a boundary polygon with a row of the first table on the ZIP, and a ZIP
    of the first table is in the merged table exactly when it has a
    boundary; the ZIP view keeps exactly the rows of the metro with a
    defined metric value whose ZIP is among the boundary polygons. *)
Theorem zip_filter_inner_join (selected_city : string)
  (zcta_shapes : list (ZctaShape G)) (df_zip_metric : list ZipMetricRow) :
  let res := get_zip_polygons_for_metro selected_city zcta_shapes df_zip_metric in
  ((forall r, In r df_zip_metric -> zm_city r = selected_city ->
      notna (zm_metric_value r) = false) ->
   res = ([], []) /\ zip_view_rows selected_city zcta_shapes df_zip_metric = [])
  /\ (forall r, In r (fst res) <->
        In r df_zip_metric /\ zm_city r = selected_city
        /\ notna (zm_metric_value r) = true)
  /\ (forall m, In m (snd res) ->
        (exists s, In s zcta_shapes /\ zs_zip_code_str s = mg_zip_code_str m
                   /\ zs_geometry s = mg_geometry m)
        /\ (exists r, In r (fst res) /\ zm_zip_code_str r = mg_zip_code_str m
                      /\ zm_metric_value r = mg_metric_value m
                      /\ zm_city_full r = mg_city_full m))
  /\ (forall r, In r (fst res) ->
        ((exists m, In m (snd res) /\ mg_zip_code_str m = zm_zip_code_str r)
         <-> exists s, In s zcta_shapes /\ zs_zip_code_str s = zm_zip_code_str r))
  /\ (forall r, In r (zip_view_rows selected_city zcta_shapes df_zip_metric) <->
        In r df_zip_metric /\ zm_city r = selected_city
        /\ notna (zm_metric_value r) = true
        /\ exists s, In s zcta_shapes /\ zs_zip_code_str s = zm_zip_code_str r).
Proof.
  intros res.
  assert (Hres : res = (zip_rows_of selected_city df_zip_metric,
                        merge_inner zcta_shapes
                          (zip_small_of (zip_rows_of selected_city df_zip_metric))))
    by apply get_zip_polygons_for_metro_eq.
  assert (Hview : forall r,
    In r (zip_view_rows selected_city zcta_shapes df_zip_metric) <->
    In r (zip_rows_of selected_city df_zip_metric)
    /\ exists m, In m (merge_inner zcta_shapes
                         (zip_small_of (zip_rows_of selected_city df_zip_metric)))
                 /\ mg_zip_code_str m = zm_zip_code_str r).
  { intros r. unfold zip_view_rows. fold res. rewrite Hres.
    set (rows := zip_rows_of selected_city df_zip_metric).
    set (mg := merge_inner zcta_shapes (zip_small_of rows)).
    assert (Hf : In r (filter (fun r => existsb (String.eqb (zm_zip_code_str r))
                                          (map (@mg_zip_code_str G) mg))
                         (filter (fun r => notna (zm_metric_value r)) rows))
                 <-> In r rows /\ exists m, In m mg /\ mg_zip_code_str m = zm_zip_code_str r).
    { rewrite !filter_In, existsb_exists. split.
      - intros [[Hr _] [z [Hz He]]]. split; [assumption|].
        apply in_map_iff in Hz. destruct Hz as [m [<- Hm]].
        apply String.eqb_eq in He. eauto.
      - intros [Hr [m [Hm He]]]. split.
        + split; [assumption|]. now apply (zip_rows_of_In selected_city df_zip_metric r).
        + exists (mg_zip_code_str m). split; [now apply in_map|].
          now apply String.eqb_eq. }
    destruct mg as [|m0 mg'] eqn:Emg.
    { split; [intros [] | intros [_ [m [[] _]]]]. }
    destruct rows as [|r0 rows'] eqn:Erows.
    { split; [intros [] | intros [[] _]]. }
    exact Hf. }
  rewrite Hres. cbn [fst snd]. split.
  { intros Hno.
    assert (Hnil : zip_rows_of selected_city df_zip_metric = []).
    { destruct (zip_rows_of selected_city df_zip_metric) as [|r l] eqn:E; [reflexivity|].
      assert (Hr : In r (zip_rows_of selected_city df_zip_metric)) by (rewrite E; now left).
      apply zip_rows_of_In in Hr. destruct Hr as (Hin & Hc & Hv).
      rewrite (Hno r Hin Hc) in Hv. discriminate. }
    rewrite Hnil. split.
    - unfold zip_small_of. simpl. now rewrite merge_inner_nil.
    - destruct (zip_view_rows selected_city zcta_shapes df_zip_metric) as [|r l] eqn:E;
        [reflexivity|].
      assert (Hr : In r (r :: l)) by now left.
      apply Hview in Hr. rewrite Hnil in Hr. destruct Hr as [[] _]. }
  split; [apply zip_rows_of_In|].
  split.
  { intros m Hm. apply merge_inner_In in Hm.
    destruct Hm as [s [y [Hs [Hy [He ->]]]]]. cbn [mg_zip_code_str mg_geometry
      mg_metric_value mg_city_full]. split; [eauto|].
    unfold zip_small_of in Hy. apply drop_duplicates_sound in Hy.
    apply in_map_iff in Hy. destruct Hy as [r [<- Hr]]. simpl in He. eauto. }
  split; [intros r Hr; now apply merged_zip_iff|].
  intros r. rewrite Hview. split.
  - intros [Hr Hm]. apply (merged_zip_iff zcta_shapes _ r Hr) in Hm.
    apply zip_rows_of_In in Hr. intuition.
  - intros (Hin & Hc & Hv & Hs).
    assert (Hr : In r (zip_rows_of selected_city df_zip_metric))
      by (apply zip_rows_of_In; auto).
    split; [assumption|]. now apply merged_zip_iff.
Qed.

End ZipFacts.

(** ** The claims on concrete tables *)

Section MatcherExamples.

Import PyStr Geo Samples.

Example parse_city_state_seattle :
  parse_city_state "Seattle" "Seattle, WA" = ("Seattle", "WA").
Proof. reflexivity. Qed.

Example build_city_tokens_dallas :
  build_city_tokens "Dallas-Fort Worth" = ["dallas-fort worth"; "dallas"; "fort worth"].
Proof. reflexivity. Qed.

Example seattle_state_filter :
  match_row plain_compile
    [boundary "Seattle-Tacoma-Bellevue, WA" 0 (47 # 1) (-122 # 1);
     boundary "Seattle, OR" 1 (45 # 1) (-123 # 1)]
    (mkCityRow "Seattle" (Some "Seattle, WA") (Fin 500000) NaN NaN)
  = Matched (boundary "Seattle-Tacoma-Bellevue, WA" 0 (47 # 1) (-122 # 1)).
Proof. vm_compute. reflexivity. Qed.

Lemma match_row_stage_order_witness :
  let cbsa := [boundary "Akron, OH Metro Area" 0 (41 # 1) (-81 # 1);
               boundary "Akron, OH" 1 (41 # 1) (-82 # 1)] in
  let row := mkCityRow "Akron" (Some "Akron, OH") (Fin 150000) (Fin (41 # 1)) (Fin (-81 # 1)) in
  truthy (row_city_full row) = true
  /\ contains_matches plain_compile cbsa (row_city_full row) = Some cbsa
  /\ match_row plain_compile cbsa row = Matched (boundary "Akron, OH" 1 (41 # 1) (-82 # 1)).
Proof.
  intros cbsa row.
  split; [reflexivity|]. split; [reflexivity|].
  destruct (match_row_stage_order plain_compile cbsa row eq_refl) as [_ H].
  destruct (H eq_refl) as [H1 _].
  destruct (H1 (boundary "Akron, OH" 1 (41 # 1) (-82 # 1)) [] eq_refl) as [H2 _].
  exact H2.
Defined.

Lemma manual_name_absent_falls_through_witness :
  let cbsa := [boundary "Boston, MA Metro Area" 0 (42 # 1) (-71 # 1)] in
  let row := mkCityRow "Boston" (Some "Boston, MA") (Fin 600000) NaN NaN in
  truthy (row_city_full row) = true
  /\ resolve_manual_cbsa_name (city row) (row_city_full row)
     = Some "Boston-Cambridge-Newton, MA-NH"
  /\ (forall b, In b cbsa -> NAME b <> "Boston-Cambridge-Newton, MA-NH")
  /\ match_row plain_compile cbsa row
     = Matched (boundary "Boston, MA Metro Area" 0 (42 # 1) (-71 # 1)).
Proof.
  intros cbsa row.
  assert (Habs : forall b, In b cbsa -> NAME b <> "Boston-Cambridge-Newton, MA-NH").
  { intros b [<- | []]. discriminate. }
  split; [reflexivity|]. split; [reflexivity|]. split; [exact Habs|].
  destruct (manual_name_absent_falls_through plain_compile cbsa row
              "Boston-Cambridge-Newton, MA-NH" eq_refl eq_refl Habs) as [_ H].
  rewrite H. reflexivity.
Defined.

Lemma match_row_tie_break_witness :
  let mo := boundary "Springfield, MO" 0 (37 # 1) (-93 # 1) in
  let ma := boundary "Springfield, MA" 1 (42 # 1) (-72 # 1) in
  let row := mkCityRow "Springfield" (Some "Springfield") (Fin 200000)
                       (Fin (42 # 1)) (Fin (-73 # 1)) in
  truthy (row_city_full row) = true
  /\ manual_matches [mo; ma] (city row) (row_city_full row) = []
  /\ string_candidates plain_compile [mo; ma] (city row) (row_city_full row)
     = Some [mo; ma]
  /\ match_row plain_compile [mo; ma] row = Matched ma
  /\ forall c, In c [mo; ma] ->
     xleb (dist2 (lat row) (lon row) ma) (dist2 (lat row) (lon row) c) = true.
Proof.
  intros mo ma row.
  split; [reflexivity|]. split; [reflexivity|]. split; [reflexivity|].
  destruct (match_row_tie_break plain_compile [mo; ma] row mo [ma]
              eq_refl eq_refl eq_refl) as [best (Hm & _ & Hmin & _)].
  assert (Hbest : best = ma).
  { assert (E : match_row plain_compile [mo; ma] row = Matched ma) by reflexivity.
    rewrite E in Hm. now injection Hm. }
  subst best. split; [exact Hm|].
  intros c Hc.
  assert (Hne : [ma] <> []) by discriminate.
  destruct (Hmin Hne eq_refl eq_refl c Hc) as [_ H]. apply H.
  destruct Hc as [<- | [<- | []]]; reflexivity.
Defined.

(** C2, as it is stated, fails for Springfield, IL: both boundaries match
    the token, neither name contains IL, and the row gets no candidate
    instead of the two token-matched ones. *)
Lemma fuzzy_state_no_fallback :
  let cbsa := [boundary "Springfield, MO" 0 (37 # 1) (-93 # 1);
               boundary "Springfield, MA" 1 (42 # 1) (-72 # 1)] in
  let row := mkCityRow "Springfield" (Some "Springfield, IL") (Fin 200000) NaN NaN in
  parse_city_state "Springfield" "Springfield, IL" = ("Springfield", "IL")
  /\ filter (base_mask (build_city_tokens "Springfield")) cbsa = cbsa
  /\ filter (fun b => contains "IL" (name_upper b)) cbsa = []
  /\ fuzzy_matches plain_compile cbsa "Springfield" "Springfield, IL" = Some []
  /\ match_row plain_compile cbsa row = Dropped.
Proof. vm_compute. repeat split. Qed.

Lemma fuzzy_state_restriction_witness :
  let wa := boundary "Seattle-Tacoma-Bellevue, WA" 0 (47 # 1) (-122 # 1) in
  let oregon := boundary "Seattle, OR" 1 (45 # 1) (-123 # 1) in
  plain_patterns_ok plain_compile
  /\ parse_city_state "Seattle" "Seattle, WA" = ("Seattle", "WA")
  /\ two_letters "WA" = true
  /\ existsb (base_mask (build_city_tokens "Seattle")) [wa; oregon] = true
  /\ fuzzy_matches plain_compile [wa; oregon] "Seattle" "Seattle, WA" = Some [wa].
Proof.
  intros wa oregon.
  split; [exact plain_compile_ok|].
  split; [reflexivity|]. split; [reflexivity|]. split; [reflexivity|].
  destruct (fuzzy_state_restriction plain_compile [wa; oregon] "Seattle" "Seattle, WA"
              "Seattle" "WA" plain_compile_ok eq_refl eq_refl eq_refl) as [H _].
  exact H.
Defined.

(** C3, as it is stated, fails: the label Washington, DC is not a key of
    the manual table, so the manual stage finds nothing, and with a
    boundary whose name contains the label the row is matched to that
    boundary by containment, not to Washington-Arlington-Alexandria. *)
Lemma washington_dc_not_manual :
  let other := boundary "Washington, DC Metro Area" 0 (38 # 1) (-77 # 1) in
  let row := mkCityRow "Washington" (Some "Washington, DC") (Fin 600000) NaN NaN in
  resolve_manual_cbsa_name "Washington" "Washington, DC" = None
  /\ resolve_manual_cbsa_name "DC_Metro" "Washington, DC" = None
  /\ In washington_cbsa [other; washington_cbsa]
  /\ manual_matches [other; washington_cbsa] (city row) (row_city_full row) = []
  /\ match_row plain_compile [other; washington_cbsa] row = Matched other
  /\ NAME other <> NAME washington_cbsa.
Proof.
  intros other row.
  split; [reflexivity|]. split; [reflexivity|].
  split; [right; now left|].
  split; [reflexivity|]. split; [reflexivity|].
  discriminate.
Qed.

Lemma dc_metro_manual_override_witness :
  let other := boundary "DC_Metro Area" 0 (38 # 1) (-77 # 1) in
  let row := mkCityRow "DC" (Some " DC_Metro ") (Fin 600000) NaN NaN in
  lower (row_city_full row) = "dc_metro"
  /\ In washington_cbsa [other; washington_cbsa]
  /\ NAME washington_cbsa = "Washington-Arlington-Alexandria, DC-VA-MD-WV"
  /\ contains_matches plain_compile [other; washington_cbsa] (row_city_full row)
     = Some [other]
  /\ match_row plain_compile [other; washington_cbsa] row = Matched washington_cbsa.
Proof.
  intros other row.
  assert (Hin : In washington_cbsa [other; washington_cbsa]) by (right; now left).
  split; [reflexivity|]. split; [exact Hin|]. split; [reflexivity|].
  split; [reflexivity|].
  destruct (dc_metro_manual_override plain_compile [other; washington_cbsa] row
              washington_cbsa eq_refl Hin eq_refl) as [_ [best [others (Hf & Hm & _)]]].
  assert (Hbest : best = washington_cbsa).
  { assert (E : filter (fun b => NAME b =? "Washington-Arlington-Alexandria, DC-VA-MD-WV")
                  [other; washington_cbsa] = [washington_cbsa]) by reflexivity.
    rewrite E in Hf. now injection Hf. }
  rewrite Hbest in Hm. exact Hm.
Defined.

End MatcherExamples.

(** ** More on the matcher *)

Section MatcherInvariants.

Import PyStr Geo.

Context {G : Type}.
Variable re_compile : string -> option (string -> bool).

Lemma manual_matches_subset (cbsa : list (Boundary G)) (city city_full : string)
  (b : Boundary G) :
  In b (manual_matches cbsa city city_full) -> In b cbsa.
Proof.
  unfold manual_matches.
  destruct (resolve_manual_cbsa_name city city_full) as [name|]; [|intros []].
  destruct (truthy name); [|intros []].
  intros H. now apply filter_In in H.
Qed.

Lemma fuzzy_matches_subset (cbsa : list (Boundary G)) (city city_full : string)
  (l : list (Boundary G)) (b : Boundary G) :
  fuzzy_matches re_compile cbsa city city_full = Some l -> In b l -> In b cbsa.
Proof.
  unfold fuzzy_matches.
  destruct (parse_city_state city city_full) as [city_base state_abbrev].
  destruct (build_city_tokens city_base) as [|t ts].
  { intros H. injection H as <-. intros []. }
  destruct (existsb (base_mask (t :: ts)) cbsa).
  2:{ intros H. injection H as <-. intros []. }
  destruct (truthy state_abbrev).
  - destruct (re_compile state_abbrev) as [search|]; [|discriminate].
    destruct (existsb _ cbsa); intros H; injection H as <-.
    + intros Hb. now apply filter_In in Hb.
    + intros [].
  - intros H. injection H as <-. intros Hb. now apply filter_In in Hb.
Qed.

Lemma string_candidates_subset (cbsa : list (Boundary G)) (city city_full : string)
  (l : list (Boundary G)) (b : Boundary G) :
  string_candidates re_compile cbsa city city_full = Some l -> In b l -> In b cbsa.
Proof.
  unfold string_candidates, exact_or_contains.
  destruct (exact_matches cbsa city_full) as [|e0 es] eqn:Ee.
  - unfold contains_matches.
    destruct (re_compile (lower city_full)) as [search|]; [|discriminate].
    destruct (filter (fun b0 => search (name_lower b0)) cbsa) as [|c0 cs] eqn:Ec.
    + apply fuzzy_matches_subset.
    + intros H. injection H as <-. rewrite <- Ec. intros Hb. now apply filter_In in Hb.
  - intros H. injection H as <-. rewrite <- Ee. unfold exact_matches.
    intros Hb. now apply filter_In in Hb.
Qed.

(** X1: the boundary that a row is matched to is always a row of the
    boundary table, whatever stage found it. *)
Theorem match_row_in_table (cbsa : list (Boundary G)) (row : CityRow) (best : Boundary G) :
  match_row re_compile cbsa row = Matched best -> In best cbsa.
Proof.
  unfold match_row. destruct (truthy (row_city_full row)); [|discriminate].
  destruct (manual_matches cbsa (city row) (row_city_full row)) as [|m ms] eqn:Em.
  - unfold string_stages.
    destruct (string_candidates re_compile cbsa (city row) (row_city_full row))
      as [[|c0 rest]|] eqn:Ec; try discriminate.
    intros H. injection H as <-.
    apply (string_candidates_subset _ _ _ _ _ Ec). apply pick_best_In.
  - intros H. injection H as <-.
    apply (manual_matches_subset cbsa (city row) (row_city_full row)).
    rewrite Em. now left.
Qed.

Lemma fuzzy_matches_raises (cbsa : list (Boundary G)) (city city_full : string) :
  fuzzy_matches re_compile cbsa city city_full = None <->
  build_city_tokens (fst (parse_city_state city city_full)) <> []
  /\ existsb (base_mask (build_city_tokens (fst (parse_city_state city city_full)))) cbsa
     = true
  /\ truthy (snd (parse_city_state city city_full)) = true
  /\ re_compile (snd (parse_city_state city city_full)) = None.
Proof.
  unfold fuzzy_matches.
  destruct (parse_city_state city city_full) as [city_base state_abbrev]. cbn [fst snd].
  destruct (build_city_tokens city_base) as [|t ts].
  { split; [discriminate | intros [H _]; congruence]. }
  destruct (existsb (base_mask (t :: ts)) cbsa).
  2:{ split; [discriminate | intros (_ & H & _); discriminate]. }
  destruct (truthy state_abbrev).
  2:{ split; [discriminate | intros (_ & _ & H & _); discriminate]. }
  destruct (re_compile state_abbrev) as [search|].
  - destruct (existsb _ cbsa); split; try discriminate; intros (_ & _ & _ & H); discriminate.
  - split; [|reflexivity]. intros _. repeat split. discriminate.
Qed.

(** X2: the loop body of the matcher raises only through the
    regular-expression engine, and exactly when, for a row with a non-empty
    label and neither a manual nor an exact match, the engine rejects the
    lowercased label as a pattern, or containment finds nothing, a token
    occurs in some boundary name, the state code is non-empty and the
    engine rejects the state code as a pattern. *)
Theorem match_row_raises_iff (cbsa : list (Boundary G)) (row : CityRow) :
  let cf := row_city_full row in
  let state_abbrev := snd (parse_city_state (city row) cf) in
  let tokens := build_city_tokens (fst (parse_city_state (city row) cf)) in
  match_row re_compile cbsa row = Raised <->
  truthy cf = true
  /\ manual_matches cbsa (city row) cf = []
  /\ exact_matches cbsa cf = []
  /\ (re_compile (lower cf) = None
      \/ (contains_matches re_compile cbsa cf = Some []
          /\ existsb (base_mask tokens) cbsa = true
          /\ truthy state_abbrev = true
          /\ re_compile state_abbrev = None)).
Proof.
  intros cf state_abbrev tokens. unfold match_row. fold cf.
  destruct (truthy cf).
  2:{ split; [discriminate | intros [H _]; discriminate]. }
  destruct (manual_matches cbsa (city row) cf) as [|m ms].
  2:{ split; [discriminate | intros (_ & H & _); discriminate]. }
  unfold string_stages, string_candidates, exact_or_contains.
  destruct (exact_matches cbsa cf) as [|e0 es].
  2:{ split; [discriminate | intros (_ & _ & H & _); discriminate]. }
  unfold contains_matches.
  destruct (re_compile (lower cf)) as [search|].
  2:{ split; [intros _; repeat split; now left | reflexivity]. }
  destruct (filter (fun b => search (name_lower b)) cbsa) as [|c0 cs].
  2:{ split; [discriminate|].
      intros (_ & _ & _ & [H | (H & _)]); discriminate. }
  destruct (fuzzy_matches re_compile cbsa (city row) cf) as [[|f0 fs]|] eqn:Ef.
  - split; [discriminate|]. intros (_ & _ & _ & [H | (_ & H1 & H2 & H3)]); [discriminate|].
    assert (Hn : fuzzy_matches re_compile cbsa (city row) cf = None).
    { apply fuzzy_matches_raises. repeat split; auto.
      fold tokens. intros E. rewrite E in H1. clear - H1.
      induction cbsa; simpl in *; congruence. }
    congruence.
  - split; [discriminate|]. intros (_ & _ & _ & [H | (_ & H1 & H2 & H3)]); [discriminate|].
    assert (Hn : fuzzy_matches re_compile cbsa (city row) cf = None).
    { apply fuzzy_matches_raises. repeat split; auto.
      fold tokens. intros E. rewrite E in H1. clear - H1.
      induction cbsa; simpl in *; congruence. }
    congruence.
  - apply fuzzy_matches_raises in Ef. destruct Ef as (_ & H1 & H2 & H3).
    split; [|reflexivity]. intros _. repeat split. right. repeat split; assumption.
Qed.

End MatcherInvariants.

Section BuildFacts.

Import PyStr Geo.

Context {G : Type}.
Variable re_compile : string -> option (string -> bool).

Lemma match_row_truthy (cbsa : list (Boundary G)) (row : CityRow) (best : Boundary G) :
  match_row re_compile cbsa row = Matched best -> truthy (row_city_full row) = true.
Proof.
  unfold match_row. destruct (truthy (row_city_full row)); [reflexivity | discriminate].
Qed.

(** the records of the loop, row by row *)
Lemma match_rows_spec (cbsa : list (Boundary G)) (df_city : list CityRow) :
  (match_rows re_compile cbsa df_city = None <->
   exists row, In row df_city /\ match_row re_compile cbsa row = Raised)
  /\ forall records, match_rows re_compile cbsa df_city = Some records ->
     forall rec, In rec records <->
       exists row best, In row df_city
                        /\ match_row re_compile cbsa row = Matched best
                        /\ rec = record_of row best.
Proof.
  induction df_city as [|row df IH]; simpl.
  - split.
    + split; [discriminate | intros [row [[] _]]].
    + intros records H. injection H as <-.
      intros rec. split; [intros [] | intros [row [best [[] _]]]].
  - destruct IH as [IHn IHs].
    destruct (match_row re_compile cbsa row) as [best| |] eqn:Em.
    + destruct (match_rows re_compile cbsa df) as [records|] eqn:Er.
      * split.
        { split; [discriminate|]. intros [r [[<- | Hr] Hraise]]; [congruence|].
          assert (Hc : Some records = None) by (apply IHn; eauto).
          discriminate Hc. }
        intros recs H. injection H as <-.
        pose proof (IHs records eq_refl) as Hin.
        intros rec. simpl. rewrite Hin. split.
        { intros [<- | [r [b (Hr & Hm & ->)]]]; [exists row, best | exists r, b]; auto. }
        { intros [r [b ([<- | Hr] & Hm & ->)]].
          - left. congruence.
          - right. eauto. }
      * split; [|discriminate]. split; [|reflexivity]. intros _.
        destruct IHn as [IHn _]. destruct (IHn eq_refl) as [r [Hr Hraise]]. eauto.
    + split.
      * rewrite IHn. split.
        { intros [r [Hr Hraise]]. eauto. }
        { intros [r [[<- | Hr] Hraise]]; [congruence | eauto]. }
      * intros records H. pose proof (IHs records H) as Hin.
        intros rec. rewrite Hin. split.
        { intros [r [b (Hr & Hm & ->)]]. eauto 6. }
        { intros [r [b ([<- | Hr] & Hm & ->)]]; [congruence | eauto]. }
    + split; [|discriminate]. split; [|reflexivity]. intros _. eauto.
Qed.

Lemma match_rows_length (cbsa : list (Boundary G)) (df_city : list CityRow) :
  forall records, match_rows re_compile cbsa df_city = Some records ->
  (List.length records <= List.length df_city)%nat.
Proof.
  induction df_city as [|row df IH]; simpl; intros records H.
  - injection H as <-. simpl. lia.
  - destruct (match_row re_compile cbsa row).
    + destruct (match_rows re_compile cbsa df) as [recs|]; [|discriminate].
      injection H as <-. specialize (IH recs eq_refl). simpl. lia.
    + specialize (IH records H). lia.
    + discriminate.
Qed.

(** X3: the loop over the city table raises exactly when some row raises.
    Otherwise it yields at most one record per row; the records are exactly
    the records of the matched rows, and each has metro_name equal to its
    city_full, which is not empty and already stripped. *)
Theorem match_rows_records (cbsa : list (Boundary G)) (df_city : list CityRow) :
  (match_rows re_compile cbsa df_city = None <->
   exists row, In row df_city /\ match_row re_compile cbsa row = Raised)
  /\ forall records, match_rows re_compile cbsa df_city = Some records ->
     (List.length records <= List.length df_city)%nat
     /\ (forall rec, In rec records <->
           exists row best, In row df_city
                            /\ match_row re_compile cbsa row = Matched best
                            /\ rec = record_of row best)
     /\ (forall rec, In rec records ->
           rec_metro_name rec = rec_city_full rec
           /\ truthy (rec_city_full rec) = true
           /\ rec_city_full rec = strip (rec_city_full rec)).
Proof.
  destruct (match_rows_spec cbsa df_city) as [Hnone Hsome].
  split; [exact Hnone|].
  intros records Hr. specialize (Hsome records Hr).
  split; [exact (match_rows_length cbsa df_city records Hr)|]. split; [exact Hsome|].
  intros rec Hrec. apply Hsome in Hrec. destruct Hrec as [row [best (_ & Hm & ->)]].
  cbn [record_of rec_metro_name rec_city_full].
  split; [reflexivity|]. split; [exact (match_row_truthy cbsa row best Hm)|].
  unfold row_city_full. now rewrite strip_idem.
Qed.

Lemma compute_rankings_notna {A : Type} (value_col : A -> xnum) (df : list A) :
  (forall r, In r df -> notna (value_col r) = true) ->
  Metric.compute_rankings value_col df = Some (map (Metric.ranked_in value_col df) df).
Proof.
  intros H. rewrite compute_rankings_eq.
  assert (E : forallb (fun r => notna (value_col r)) df = true).
  { apply forallb_forall. exact H. }
  now rewrite E.
Qed.

(** the table of build_city_cbsa_polygons from the records of the loop *)
Lemma build_rows (df_city : list CityRow) (cbsa_gdf : list (Boundary G)) :
  ((forall row, In row df_city -> notna (avg_metric_value row) = true) ->
   (build_city_cbsa_polygons re_compile df_city cbsa_gdf = None <->
    match_rows re_compile cbsa_gdf df_city = None))
  /\ forall out, build_city_cbsa_polygons re_compile df_city cbsa_gdf = Some out ->
     exists records,
       match_rows re_compile cbsa_gdf df_city = Some records
       /\ out = map (Metric.ranked_in rec_avg_metric_value records) records.
Proof.
  destruct (match_rows_spec cbsa_gdf df_city) as [_ Hsome].
  unfold build_city_cbsa_polygons.
  destruct (match_rows re_compile cbsa_gdf df_city) as [records|] eqn:Er.
  - pose proof (Hsome records eq_refl) as Hin. split.
    + intros Hna.
      assert (Hrec : forall rec, In rec records -> notna (rec_avg_metric_value rec) = true).
      { intros rec Hr. apply Hin in Hr. destruct Hr as [row [b (Hrow & _ & ->)]].
        simpl. now apply Hna. }
      split; [|discriminate].
      destruct records as [|r0 rs]; [discriminate|].
      rewrite compute_rankings_notna by assumption. discriminate.
    + intros out Hout. exists records. split; [reflexivity|].
      destruct records as [|r0 rs].
      { now injection Hout as <-. }
      remember (r0 :: rs) as recs eqn:Erecs. clear Erecs.
      rewrite compute_rankings_eq in Hout.
      destruct (forallb _ recs); [|discriminate].
      now injection Hout as <-.
  - split; [intros _; split; reflexivity | discriminate].
Qed.

(** X4: when no row has a NaN average, build_city_cbsa_polygons raises
    exactly when the matcher raises on some row.  When it returns, its rows
    are the matched records in order, rank_total is the number of matched
    records and rank is one plus the number of matched records with a
    strictly larger average (the ranks are taken over the matched set, not
    over the input). *)
Theorem build_city_cbsa_polygons_ranked (df_city : list CityRow)
  (cbsa_gdf : list (Boundary G)) :
  ((forall row, In row df_city -> notna (avg_metric_value row) = true) ->
   (build_city_cbsa_polygons re_compile df_city cbsa_gdf = None <->
    exists row, In row df_city /\ match_row re_compile cbsa_gdf row = Raised))
  /\ forall out, build_city_cbsa_polygons re_compile df_city cbsa_gdf = Some out ->
     exists records,
       match_rows re_compile cbsa_gdf df_city = Some records
       /\ map (@Metric.ranked_row _) out = records
       /\ forall r, In r out ->
          Metric.rank_total r = Z.of_nat (List.length records)
          /\ Metric.rank r
             = (1 + Z.of_nat (List.length
                      (filter (fun x => xltb (rec_avg_metric_value (Metric.ranked_row r))
                                             (rec_avg_metric_value x)) records)))%Z.
Proof.
  destruct (build_rows df_city cbsa_gdf) as [Hnone Hsome].
  destruct (match_rows_spec cbsa_gdf df_city) as [Hraise _].
  split.
  - intros Hna. rewrite (Hnone Hna). exact Hraise.
  - intros out Hout. destruct (Hsome out Hout) as [records [Hm ->]].
    exists records. split; [exact Hm|]. split.
    + rewrite map_map. apply map_id.
    + intros r Hr. apply in_map_iff in Hr. destruct Hr as [a [<- _]].
      split; reflexivity.
Qed.

End BuildFacts.

(** ** Labels, tokens and the manual table *)

Section LabelFacts.

Import PyStr Geo.

Lemma py_or_empty (a : string) : py_or a "" = a.
Proof. unfold py_or, truthy. destruct a; reflexivity. Qed.

Lemma existsb_eqb_In (x : string) (seen : list string) :
  existsb (String.eqb x) seen = true <-> In x seen.
Proof.
  rewrite existsb_exists. split.
  - intros [y [Hy He]]. apply String.eqb_eq in He. now subst.
  - intros H. exists x. split; [assumption | apply String.eqb_refl].
Qed.

Lemma dedup_aux_spec (l : list string) : forall seen,
  NoDup (dedup_aux seen l)
  /\ forall x, In x (dedup_aux seen l) <-> In x l /\ ~ In x seen.
Proof.
  induction l as [|a l IH]; intros seen; simpl.
  - split; [constructor | intuition].
  - destruct (existsb (String.eqb a) seen) eqn:E.
    + destruct (IH seen) as [Hnd Hin]. split; [assumption|].
      intros x. rewrite Hin. apply existsb_eqb_In in E. split.
      * intuition.
      * intros [[<- | Hx] Hs]; [contradiction | auto].
    + destruct (IH (a :: seen)) as [Hnd Hin].
      assert (Ha : ~ In a seen).
      { intros H. apply existsb_eqb_In in H. congruence. }
      split.
      * constructor; [|assumption]. rewrite Hin. intros [_ H]. apply H. now left.
      * intros x. simpl. rewrite Hin. simpl. split.
        { intros [<- | [Hx Hs]]; [auto|]. split; [now right | tauto]. }
        { intros [[<- | Hx] Hs]; [now left|].
          destruct (String.eqb_spec a x) as [-> | Hne]; [now left|].
          right. split; [assumption|]. intros [H | H]; [congruence | contradiction]. }
Qed.

Lemma fromkeys_head (x : string) (l : list string) :
  exists rest, fromkeys (x :: l) = x :: rest.
Proof. unfold fromkeys. simpl. eauto. Qed.

(** X5: build_city_tokens returns no token when the stripped name is
    empty; otherwise its first token is the lowercased, stripped name; its
    tokens are pairwise distinct and none is empty. *)
Theorem build_city_tokens_shape (city_base : string) :
  let key := lower (strip city_base) in
  let tokens := build_city_tokens city_base in
  (key = "" -> tokens = [])
  /\ (key <> "" -> exists rest, tokens = key :: rest)
  /\ NoDup tokens
  /\ forall t, In t tokens -> t <> "".
Proof.
  intros key tokens. unfold tokens, build_city_tokens.
  rewrite py_or_empty. fold key.
  destruct (truthy key) eqn:Ek.
  - apply truthy_true in Ek.
    set (f := fun (tokens : list string) (sep : string) =>
                if contains sep key
                then tokens ++ filter truthy (map strip (split sep key))
                else tokens).
    assert (Hinv : forall seps acc,
               (exists rest, acc = key :: rest) ->
               (forall t, In t acc -> t <> "") ->
               (exists rest, fold_left f seps acc = key :: rest)
               /\ forall t, In t (fold_left f seps acc) -> t <> "").
    { induction seps as [|sep seps IH]; intros acc Hhd Hne; simpl; [auto|].
      apply IH.
      - unfold f. destruct (contains sep key); [|assumption].
        destruct Hhd as [rest ->]. simpl. eauto.
      - intros t. unfold f. destruct (contains sep key); [|apply Hne].
        rewrite in_app_iff, filter_In. intros [H | [_ H]]; [now apply Hne|].
        now apply truthy_true. }
    destruct (Hinv separators [key]) as [[rest Hrest] Hne].
    { now exists []. }
    { intros t [<- | []]. assumption. }
    fold f. rewrite Hrest in *.
    destruct (dedup_aux_spec (key :: rest) []) as [Hnd Hin].
    split; [contradiction|]. split; [intros _; apply fromkeys_head|].
    split; [exact Hnd|].
    intros t Ht. apply Hin in Ht. destruct Ht as [Ht _]. now apply Hne.
  - assert (key = "").
    { destruct key; [reflexivity | discriminate]. }
    split; [reflexivity|]. split; [contradiction|]. split; [constructor | intros t []].
Qed.

Lemma string_of_list_ascii_snoc (l : list ascii) (c : ascii) (s : string) :
  (string_of_list_ascii (l ++ [c]) ++ s)%string
  = (string_of_list_ascii l ++ String c s)%string.
Proof. induction l as [|a l IH]; simpl; congruence. Qed.

Lemma append_empty_r (s : string) : (s ++ "")%string = s.
Proof. induction s; simpl; congruence. Qed.

Lemma split_aux_no_sep (sep s : string) : forall cur,
  contains sep s = false ->
  split_aux sep s 0 cur = [(string_of_list_ascii (rev cur) ++ s)%string].
Proof.
  induction s as [|c s IH]; intros cur H.
  - simpl. now rewrite append_empty_r.
  - cbn [contains] in H. apply orb_false_iff in H. destruct H as [Hp Hc].
    cbn [split_aux]. rewrite Hp, (IH (c :: cur) Hc). cbn [rev].
    now rewrite string_of_list_ascii_snoc.
Qed.

Lemma split_no_sep (sep s : string) : contains sep s = false -> split sep s = [s].
Proof. intros H. unfold split. now rewrite split_aux_no_sep. Qed.

Lemma substring_length_le (s : string) : forall n, (String.length (substring 0 n s) <= n)%nat.
Proof.
  induction s as [|c s IH]; intros [|n]; simpl; try lia.
  specialize (IH n). lia.
Qed.

Lemma upper_char_idem (c : ascii) : upper_char (upper_char c) = upper_char c.
Proof. destruct c as [[] [] [] [] [] [] [] []]; reflexivity. Qed.

Lemma upper_substring (s : string) : forall n,
  upper (substring 0 n (upper s)) = substring 0 n (upper s).
Proof.
  induction s as [|c s IH]; intros [|n]; simpl; try reflexivity.
  unfold upper in *. simpl. now rewrite upper_char_idem, IH.
Qed.

(** X6: parse_city_state returns a city name that is already stripped
    and a state code of at most two characters that upper leaves
    unchanged; for a label without a comma the city name is the stripped
    label and the state code is empty. *)
Theorem parse_city_state_shape (city city_full : string) :
  let raw := py_or (py_or city_full city) "" in
  let city_base := fst (parse_city_state city city_full) in
  let state_abbrev := snd (parse_city_state city city_full) in
  strip city_base = city_base
  /\ (String.length state_abbrev <= 2)%nat
  /\ upper state_abbrev = state_abbrev
  /\ (contains "," raw = false -> city_base = strip raw /\ state_abbrev = "").
Proof.
  intros raw city_base state_abbrev.
  unfold city_base, state_abbrev, parse_city_state. fold raw.
  split; [|split; [|split]].
  - destruct (map strip (split "," raw)) as [|p0 [|p1 ps]]; cbn [fst];
      apply strip_idem.
  - destruct (map strip (split "," raw)) as [|p0 [|p1 ps]]; cbn [snd];
      try (simpl; lia).
    destruct (truthy p1); [apply substring_length_le | simpl; lia].
  - destruct (map strip (split "," raw)) as [|p0 [|p1 ps]]; cbn [snd];
      try reflexivity.
    destruct (truthy p1); [apply upper_substring | reflexivity].
  - intros H. rewrite (split_no_sep _ _ H). cbn [map fst snd truthy String.eqb negb].
    split; [apply strip_idem | reflexivity].
Qed.

(** X7: resolve_manual_cbsa_name depends only on the stripped,
    lowercased label: the key dc_metro gives the Washington name, any key
    containing boston gives the Boston name, every other key gives None;
    the city argument is ignored when city_full is not empty. *)
Theorem resolve_manual_cbsa_name_range (city city_full : string) :
  let key := lower (strip (py_or (py_or city_full city) "")) in
  let r := resolve_manual_cbsa_name city city_full in
  (key = "dc_metro" -> r = Some "Washington-Arlington-Alexandria, DC-VA-MD-WV")
  /\ (contains "boston" key = true -> r = Some "Boston-Cambridge-Newton, MA-NH")
  /\ (r = None <-> key <> "dc_metro" /\ contains "boston" key = false)
  /\ (city_full <> "" -> r = resolve_manual_cbsa_name "" city_full).
Proof.
  intros key r. unfold r, resolve_manual_cbsa_name. fold key.
  cbn [MANUAL_CBSA_NAME_MAP dict_get].
  split; [|split; [|split]].
  - intros ->. reflexivity.
  - intros H. destruct (String.eqb_spec "dc_metro" key) as [<- | Hne]; [discriminate|].
    now rewrite H.
  - destruct (String.eqb_spec "dc_metro" key) as [<- | Hne].
    + split; [discriminate | intros [H _]; congruence].
    + destruct (contains "boston" key).
      * split; [discriminate | intros [_ H]; discriminate].
      * split; [intros _; split; [congruence | reflexivity] | reflexivity].
  - intros Hne. apply truthy_true in Hne.
    unfold key. now rewrite !(py_or_truthy city_full _ Hne).
Qed.

End LabelFacts.

(** ** Shapefile paths and derived keys *)

Section PathFacts.

Import PyStr Paths.

Lemma prefix_append (t b : string) : prefix t (t ++ b)%string = true.
Proof.
  induction t as [|a t IH]; simpl; [now destruct b|].
  destruct (ascii_dec a a); [assumption | congruence].
Qed.

Lemma contains_prefix (t s : string) : prefix t s = true -> contains t s = true.
Proof. intros H. destruct s; cbn [contains]; now rewrite H. Qed.

Lemma contains_append_r (t a s : string) :
  contains t s = true -> contains t (a ++ s)%string = true.
Proof.
  intros H. induction a as [|c a IH]; [assumption|].
  change (String c a ++ s)%string with (String c (a ++ s)%string).
  cbn [contains]. rewrite IH. apply orb_true_r.
Qed.

Lemma contains_middle (t a b : string) : contains t (a ++ t ++ b)%string = true.
Proof. apply contains_append_r, contains_prefix, prefix_append. Qed.

Variable path_exists : string -> bool.

(** X8: _resolve_shapefile_path prefers the .shp path when it is non-empty
    and exists, otherwise returns zip:// followed by the zip path when
    that one is non-empty and exists; a path is only returned for a file
    that exists; the error is raised only when neither is usable, and its
    message contains the label and both paths. *)
Theorem resolve_shapefile_path_cases (shp_path zip_path label : string) :
  let r := _resolve_shapefile_path path_exists shp_path zip_path label in
  let shp_ok := truthy shp_path && path_exists shp_path in
  let zip_ok := truthy zip_path && path_exists zip_path in
  (shp_ok = true -> r = inl shp_path)
  /\ (shp_ok = false -> zip_ok = true -> r = inl ("zip://" ++ zip_path)%string)
  /\ (forall p, r = inl p -> path_exists shp_path = true \/ path_exists zip_path = true)
  /\ (forall msg, r = inr msg ->
        shp_ok = false /\ zip_ok = false
        /\ contains label msg = true
        /\ contains shp_path msg = true
        /\ contains zip_path msg = true).
Proof.
  intros r shp_ok zip_ok. unfold r, _resolve_shapefile_path. fold shp_ok. fold zip_ok.
  destruct shp_ok eqn:Es.
  - split; [reflexivity|]. split; [discriminate|]. split; [|discriminate].
    intros p _. left. unfold shp_ok in Es. now apply andb_true_iff in Es.
  - destruct zip_ok eqn:Ez.
    + split; [discriminate|]. split; [reflexivity|]. split; [|discriminate].
      intros p _. right. unfold zip_ok in Ez. now apply andb_true_iff in Ez.
    + split; [discriminate|]. split; [discriminate|]. split; [discriminate|].
      intros msg H. injection H as <-. split; [reflexivity|]. split; [reflexivity|].
      unfold not_found_message. split; [|split].
      * apply contains_prefix, prefix_append.
      * apply contains_append_r, contains_append_r, contains_append_r,
          contains_prefix, prefix_append.
      * do 5 apply contains_append_r. apply contains_prefix, prefix_append.
Qed.

End PathFacts.

Section KeyFacts.

Import PyStr Keys.

Lemma length_zeros (n : nat) : String.length (zeros n) = n.
Proof. induction n; simpl; congruence. Qed.

Lemma length_app (a b : string) :
  String.length (a ++ b)%string = (String.length a + String.length b)%nat.
Proof. induction a; simpl; congruence. Qed.

Lemma zfill_length (width : nat) (s : string) :
  String.length (zfill width s) = Nat.max width (String.length s).
Proof.
  unfold zfill. destruct (width <=? String.length s)%nat eqn:E.
  - apply Nat.leb_le in E. lia.
  - apply Nat.leb_gt in E. destruct s as [|c s'].
    + rewrite length_zeros. simpl. lia.
    + destruct (is_sign c); cbn [String.length]; rewrite length_app, length_zeros;
        cbn [String.length] in *; lia.
Qed.

(** X9: zfill(width) returns a string of length max(width, len s), is
    idempotent, leaves a string of length width or more unchanged, and on
    a string without a leading sign puts the missing zeros in front. *)
Theorem zfill_shape (width : nat) (s : string) :
  String.length (zfill width s) = Nat.max width (String.length s)
  /\ zfill width (zfill width s) = zfill width s
  /\ ((width <= String.length s)%nat -> zfill width s = s)
  /\ (forall c s', s = String c s' -> is_sign c = false ->
      zfill width s = (zeros (width - String.length s) ++ s)%string).
Proof.
  split; [apply zfill_length|]. split; [|split].
  - assert (H : (width <=? String.length (zfill width s))%nat = true).
    { apply Nat.leb_le. rewrite zfill_length. lia. }
    unfold zfill at 1. now rewrite H.
  - intros H. unfold zfill. apply Nat.leb_le in H. now rewrite H.
  - intros c s' -> Hc. unfold zfill.
    destruct (width <=? String.length (String c s'))%nat eqn:E.
    + apply Nat.leb_le in E.
      replace (width - String.length (String c s'))%nat with 0%nat by lia. reflexivity.
    + now rewrite Hc.
Qed.

Lemma string_of_uint_digits (d : Decimal.uint) :
  forall c, In c (list_ascii_of_string (NilEmpty.string_of_uint d)) -> is_digit c = true.
Proof.
  induction d; simpl; intros ch H; try contradiction;
    (destruct H as [<- | H]; [reflexivity | now apply IHd]).
Qed.

Lemma no_lt_no_na (s : string) :
  (forall c, In c (list_ascii_of_string s) -> c <> "<"%char) ->
  contains "<NA>" s = false.
Proof.
  induction s as [|c s IH]; intros H; [reflexivity|].
  cbn [contains]. rewrite IH; [|intros ch Hch; apply H; now right].
  rewrite orb_false_r. cbn [prefix].
  destruct (ascii_dec "<" c) as [<- | Hne]; [|reflexivity].
  exfalso. apply (H "<"%char); [now left | reflexivity].
Qed.

Lemma str_of_Z_no_lt (z : Z) :
  forall c, In c (list_ascii_of_string (str_of_Z z)) -> c <> "<"%char.
Proof.
  assert (Hd : forall n c, In c (list_ascii_of_string (str_of_nat n)) -> c <> "<"%char).
  { intros n c H ->. apply string_of_uint_digits in H. discriminate. }
  destruct z as [|p|p]; cbn [str_of_Z].
  - intros c [<- | []]. discriminate.
  - apply (Hd (Pos.to_nat p)).
  - cbn [list_ascii_of_string]. intros c [<- | H]; [discriminate|].
    now apply (Hd (Pos.to_nat p)).
Qed.

(** X10: the ZIP key of a housing record with ZIP number z is the key
    that the ZCTA loader derives from the printed number, so the two
    tables meet on it; it has at least five characters, and a missing ZIP
    becomes 00000. *)
Theorem zip_keys_agree (z : Z) :
  house_zip_code_str (Some z) = zcta_zip_code_str (str_of_Z z)
  /\ (5 <= String.length (house_zip_code_str (Some z)))%nat
  /\ house_zip_code_str None = "00000".
Proof.
  assert (E : house_zip_code_str (Some z) = zfill 5 (str_of_Z z)).
  { unfold house_zip_code_str, replace.
    rewrite split_no_sep; [reflexivity|]. apply no_lt_no_na, str_of_Z_no_lt. }
  split; [exact E|]. split; [|reflexivity].
  rewrite E, zfill_length. lia.
Qed.

Lemma is_space_lower_char (c : ascii) : is_space (lower_char c) = is_space c.
Proof. destruct c as [[] [] [] [] [] [] [] []]; reflexivity. Qed.

Lemma lower_char_idem (c : ascii) : lower_char (lower_char c) = lower_char c.
Proof. destruct c as [[] [] [] [] [] [] [] []]; reflexivity. Qed.

Lemma lower_idem (s : string) : lower (lower s) = lower s.
Proof.
  unfold lower. induction s as [|c s IH]; simpl; [reflexivity|].
  now rewrite lower_char_idem, IH.
Qed.

Lemma lstrip_lower (s : string) : lstrip (lower s) = lower (lstrip s).
Proof.
  unfold lower. induction s as [|c s IH]; simpl; [reflexivity|].
  rewrite is_space_lower_char. destruct (is_space c); [assumption | reflexivity].
Qed.

Lemma reverse_lower (s : string) : reverse (lower s) = lower (reverse s).
Proof.
  unfold reverse, lower.
  assert (H1 : forall s, list_ascii_of_string (map_chars lower_char s)
                         = map lower_char (list_ascii_of_string s)).
  { intros s0. induction s0; simpl; congruence. }
  assert (H2 : forall l, string_of_list_ascii (map lower_char l)
                         = map_chars lower_char (string_of_list_ascii l)).
  { intros l. induction l; simpl; congruence. }
  now rewrite H1, <- map_rev, H2.
Qed.

Lemma strip_lower (s : string) : strip (lower s) = lower (strip s).
Proof.
  unfold strip, rstrip.
  now rewrite lstrip_lower, reverse_lower, lstrip_lower, reverse_lower.
Qed.

(** X11: city_clean is the same as stripping first and lowercasing after
    (the order used by the matcher), and it is idempotent. *)
Theorem city_clean_normal_form (city : string) :
  city_clean city = lower (strip city)
  /\ city_clean (city_clean city) = city_clean city.
Proof.
  unfold city_clean. split; [apply strip_lower|].
  now rewrite (strip_lower (strip (lower city))), strip_idem, strip_lower, lower_idem.
Qed.

End KeyFacts.

(** ** The chart tables and the decoding of clicks *)

Section ChartFacts.

Import Geo Keys Charts Events.

Lemma str_of_nat_inj (a b : nat) : str_of_nat a = str_of_nat b -> a = b.
Proof.
  unfold str_of_nat. intros H.
  apply (f_equal NilEmpty.uint_of_string) in H.
  rewrite !NilEmpty.usu in H. injection H as H.
  now apply Unsigned.to_uint_inj.
Qed.

Lemma combine_seq_nth {A : Type} (f : nat -> string) (l : list A) : forall s k,
  nth_error (combine (map f (seq s (List.length l))) l) k
  = option_map (fun a => (f (s + k)%nat, a)) (nth_error l k).
Proof.
  induction l as [|a l IH]; intros s k; simpl.
  - now destruct k.
  - destruct k as [|k]; simpl.
    + now rewrite Nat.add_0_r.
    + rewrite IH. now rewrite Nat.add_succ_r.
Qed.

Lemma with_ids_nth {A : Type} (l : list A) (k : nat) :
  nth_error (with_ids l) k = option_map (fun a => (str_of_nat k, a)) (nth_error l k).
Proof. unfold with_ids. now rewrite combine_seq_nth. Qed.

Lemma with_ids_snd {A : Type} (l : list A) : map snd (with_ids l) = l.
Proof.
  unfold with_ids. generalize 0%nat.
  induction l as [|a l IH]; intros s; simpl; [reflexivity|]. now rewrite IH.
Qed.

Lemma with_ids_In {A : Type} (l : list A) (p : string * A) :
  In p (with_ids l) -> In (snd p) l.
Proof. intros H. rewrite <- (with_ids_snd l). now apply in_map. Qed.

Lemma filter_first_unique {A : Type} (key : A -> string) (l : list A) : forall k x,
  nth_error l k = Some x ->
  (forall i y, nth_error l i = Some y -> key y = key x -> i = k) ->
  exists rest, filter (fun r => key r =? key x) l = x :: rest.
Proof.
  induction l as [|a l IH]; intros k x Hk Hu.
  - destruct k; discriminate.
  - destruct k as [|k]; simpl in Hk.
    + injection Hk as ->. simpl. rewrite String.eqb_refl. eauto.
    + simpl. destruct (String.eqb_spec (key a) (key x)) as [E | _].
      * specialize (Hu 0%nat a eq_refl E). discriminate.
      * apply (IH k x Hk). intros i y Hi Hy.
        specialize (Hu (S i) y Hi Hy). lia.
Qed.

Context {G : Type}.

Lemma create_zip_choropleth_eq (gdf : list (ZipMerged G)) :
  create_zip_choropleth gdf =
  match filter (fun r => notna (mg_metric_value r)) gdf with
  | [] => NoChart
  | rows => Chart (map (Metric.ranked_in zip_value (with_ids rows)) (with_ids rows))
  end.
Proof.
  unfold create_zip_choropleth.
  destruct gdf as [|g0 gdf']; [reflexivity|].
  destruct (filter (fun r => notna (mg_metric_value r)) (g0 :: gdf')) as [|r0 rows] eqn:E;
    [reflexivity|].
  fold (@zip_value G). rewrite compute_rankings_notna; [reflexivity|].
  intros p Hp. apply with_ids_In in Hp. rewrite <- E in Hp.
  apply filter_In in Hp. unfold zip_value. tauto.
Qed.

Lemma chart_rows_id (gdf : list (ZipMerged G))
  (t : list (Metric.Ranked (string * ZipMerged G))) :
  create_zip_choropleth gdf = Chart t ->
  forall k row, nth_error t k = Some row -> fst (Metric.ranked_row row) = str_of_nat k.
Proof.
  rewrite create_zip_choropleth_eq.
  destruct (filter (fun r => notna (mg_metric_value r)) gdf) as [|r0 rows];
    [discriminate|].
  remember (r0 :: rows) as l eqn:El. clear El.
  intros Ht. injection Ht as <-. intros k row Hk.
  rewrite nth_error_map in Hk.
  destruct (nth_error (with_ids l) k) as [p|] eqn:Ep; [|discriminate].
  injection Hk as <-. cbn [Metric.ranked_in Metric.ranked_row].
  rewrite with_ids_nth in Ep.
  destruct (nth_error l k) as [a|]; [|discriminate]. now injection Ep as <-.
Qed.

(** X12: create_zip_choropleth never raises; it returns no chart exactly
    when no row has a metric value; otherwise its table holds the rows
    with a metric value in their order, the row at position k has the id
    str(k), rank_total is the number of rows and rank is one plus the
    number of rows with a strictly larger metric value. *)
Theorem create_zip_choropleth_table (gdf : list (ZipMerged G)) :
  create_zip_choropleth gdf <> ChartRaised
  /\ (create_zip_choropleth gdf = NoChart <->
      forall r, In r gdf -> notna (mg_metric_value r) = false)
  /\ forall t, create_zip_choropleth gdf = Chart t ->
     map (fun r => snd (Metric.ranked_row r)) t
     = filter (fun r => notna (mg_metric_value r)) gdf
     /\ forall k row, nth_error t k = Some row ->
        fst (Metric.ranked_row row) = str_of_nat k
        /\ Metric.rank_total row = Z.of_nat (List.length t)
        /\ Metric.rank row
           = (1 + Z.of_nat (List.length
                    (filter (fun x => xltb (mg_metric_value (snd (Metric.ranked_row row)))
                                           (mg_metric_value (snd (Metric.ranked_row x)))) t)))%Z.
Proof.
  rewrite create_zip_choropleth_eq.
  destruct (filter (fun r => notna (mg_metric_value r)) gdf) as [|r0 rows] eqn:E.
  - split; [discriminate|]. split; [|discriminate].
    split; [|reflexivity]. intros _ r Hr.
    destruct (notna (mg_metric_value r)) eqn:En; [|reflexivity].
    assert (H : In r []) by (rewrite <- E; apply filter_In; auto). destruct H.
  - remember (r0 :: rows) as l eqn:El. split; [discriminate|]. split.
    + split; [discriminate|]. intros H. exfalso.
      assert (Hr : In r0 l) by (rewrite El; now left).
      rewrite <- E in Hr. apply filter_In in Hr. destruct Hr as [Hr Hn].
      rewrite (H r0 Hr) in Hn. discriminate.
    + intros t Ht. injection Ht as <-. split.
      * rewrite map_map. cbn [Metric.ranked_in Metric.ranked_row].
        change (fun x : string * ZipMerged G => snd x) with (@snd string (ZipMerged G)).
        apply with_ids_snd.
      * intros k row Hk.
        rewrite nth_error_map in Hk.
        destruct (nth_error (with_ids l) k) as [p|] eqn:Ep; [|discriminate].
        injection Hk as <-. cbn [Metric.ranked_in Metric.ranked_row Metric.rank_total
                                 Metric.rank].
        rewrite with_ids_nth in Ep.
        destruct (nth_error l k) as [a|]; [|discriminate]. injection Ep as <-.
        split; [reflexivity|]. split.
        { now rewrite length_map. }
        unfold Metric.rank_in, Metric.above. rewrite filter_map_length. reflexivity.
Qed.

Section Clicks.

Context {V : Type}.
Variable py_str : V -> string.

(** X13: for the table that create_zip_choropleth returns, a click
    without customdata on row k decodes to the ZIP of row k both from its
    location (the id of the row) and from its point_index. *)
Theorem zip_click_round_trip (gdf : list (ZipMerged G))
  (t : list (Metric.Ranked (string * ZipMerged G))) (k : nat)
  (row : Metric.Ranked (string * ZipMerged G)) (loc : V) :
  create_zip_choropleth gdf = Chart t ->
  nth_error t k = Some row ->
  py_str loc = str_of_nat k ->
  (forall pi,
     extract_zip_from_event py_str chart_id chart_zip
       (Some [@mkPoint V None (Some loc) pi]) (Some t) = Zip (chart_zip row))
  /\ extract_zip_from_event py_str chart_id chart_zip
       (Some [@mkPoint V None None (Some (Z.of_nat k))]) (Some t) = Zip (chart_zip row).
Proof.
  intros Ht Hk Hloc.
  pose proof (chart_rows_id gdf t Ht) as Hrows.
  split.
  - intros pi. cbn [extract_zip_from_event customdata location].
    rewrite Hloc.
    pose proof (Hrows k row Hk) as Hid.
    destruct (filter_first_unique chart_id t k row Hk) as [rest Hf].
    { intros i y Hi Hy. pose proof (Hrows i y Hi) as Hyid.
      unfold chart_id in Hy. rewrite Hyid, Hid in Hy. now apply str_of_nat_inj. }
    unfold chart_id in Hf at 2. rewrite Hid in Hf. now rewrite Hf.
  - cbn [extract_zip_from_event customdata location by_point_index point_index].
    assert (Hlt : (k < List.length t)%nat).
    { apply nth_error_Some. congruence. }
    assert (E : (Z.of_nat k <? Z.of_nat (List.length t))%Z = true)
      by (apply Z.ltb_lt; lia).
    rewrite E. unfold iloc.
    assert (E0 : (0 <=? Z.of_nat k)%Z = true) by (apply Z.leb_le; lia).
    now rewrite E0, Nat2Z.id, Hk.
Qed.

End Clicks.

End ChartFacts.

Section EventFacts.

Import Events.

Context {V R : Type}.
Variable py_str : V -> string.
Variable id_col : R -> string.
Variable zip_code_str_col : R -> string.

Lemma iloc_In (gdf : list R) (i : Z) (row : R) : iloc gdf i = Some row -> In row gdf.
Proof.
  unfold iloc. destruct (0 <=? i)%Z; [apply nth_error_In|].
  destruct (- Z.of_nat (List.length gdf) <=? i)%Z; [apply nth_error_In | discriminate].
Qed.

Lemma iloc_None (gdf : list R) (i : Z) :
  (i < Z.of_nat (List.length gdf))%Z -> iloc gdf i = None ->
  (i < - Z.of_nat (List.length gdf))%Z.
Proof.
  unfold iloc. intros Hlt.
  destruct (0 <=? i)%Z eqn:E0.
  - apply Z.leb_le in E0. intros H. apply nth_error_None in H. lia.
  - apply Z.leb_gt in E0.
    destruct (- Z.of_nat (List.length gdf) <=? i)%Z eqn:E1.
    + apply Z.leb_le in E1. intros H. apply nth_error_None in H. lia.
    + apply Z.leb_gt in E1. intros _. exact E1.
Qed.

Lemma by_point_index_cases (p : Point V) (gdf_zip : option (list R)) :
  match by_point_index zip_code_str_col p gdf_zip with
  | Zip z => exists gdf row, gdf_zip = Some gdf /\ In row gdf /\ zip_code_str_col row = z
  | NoZip => True
  | IndexError =>
      exists gdf i, gdf_zip = Some gdf /\ point_index p = Some i
                    /\ (i < - Z.of_nat (List.length gdf))%Z
  end.
Proof.
  unfold by_point_index.
  destruct (point_index p) as [i|]; [|exact I].
  destruct gdf_zip as [gdf|]; [|exact I].
  destruct (i <? Z.of_nat (List.length gdf))%Z eqn:E; [|exact I].
  apply Z.ltb_lt in E.
  destruct (iloc gdf i) as [row|] eqn:Ei.
  - exists gdf, row. repeat split. now apply iloc_In in Ei.
  - exists gdf, i. repeat split. now apply iloc_None.
Qed.

(** X14: extract_zip_from_event returns the first customdata value
    whenever the first point has one, whatever location, point_index and
    table are; any other ZIP it returns is the zip_code_str of a row of
    the table; it raises only for a point_index below minus the length of
    the table; and it returns None for an event without points. *)
Theorem extract_zip_from_event_result (event : Event V) (gdf_zip : option (list R)) :
  (forall p ps c0 cs, event = Some (p :: ps) -> customdata p = Some (c0 :: cs) ->
     extract_zip_from_event py_str id_col zip_code_str_col event gdf_zip
     = Zip (py_str c0))
  /\ (forall z, extract_zip_from_event py_str id_col zip_code_str_col event gdf_zip = Zip z ->
        (exists p ps c0 cs, event = Some (p :: ps) /\ customdata p = Some (c0 :: cs)
                            /\ z = py_str c0)
        \/ (exists gdf row, gdf_zip = Some gdf /\ In row gdf /\ zip_code_str_col row = z))
  /\ (extract_zip_from_event py_str id_col zip_code_str_col event gdf_zip = IndexError ->
        exists p ps gdf i, event = Some (p :: ps) /\ gdf_zip = Some gdf
                           /\ point_index p = Some i
                           /\ (i < - Z.of_nat (List.length gdf))%Z)
  /\ ((event = None \/ event = Some []) ->
        extract_zip_from_event py_str id_col zip_code_str_col event gdf_zip = NoZip).
Proof.
  split; [|split; [|split]].
  - intros p ps c0 cs -> Hc. cbn [extract_zip_from_event]. now rewrite Hc.
  - intros z. destruct event as [[|p ps]|]; cbn [extract_zip_from_event]; try discriminate.
    destruct (customdata p) as [[|c0 cs]|] eqn:Ec.
    2:{ intros H. injection H as <-. left. exists p, ps, c0, cs. auto. }
    all: pose proof (by_point_index_cases p gdf_zip) as Hb.
    all: destruct (location p) as [loc|]; [destruct gdf_zip as [gdf|] eqn:Eg|].
    all: try (destruct (filter (fun r => id_col r =? py_str loc) gdf) as [|row rest] eqn:Ef;
              [|intros H; injection H as <-; right; exists gdf, row;
                split; [reflexivity|]; split; [|reflexivity];
                assert (Hin : In row (row :: rest)) by (now left);
                rewrite <- Ef in Hin; now apply filter_In in Hin]).
    all: intros H; rewrite H in Hb; right; exact Hb.
  - destruct event as [[|p ps]|]; cbn [extract_zip_from_event]; try discriminate.
    destruct (customdata p) as [[|c0 cs]|]; try discriminate.
    all: pose proof (by_point_index_cases p gdf_zip) as Hb.
    all: destruct (location p) as [loc|]; [destruct gdf_zip as [gdf|] eqn:Eg|].
    all: try (destruct (filter (fun r => id_col r =? py_str loc) gdf) as [|row rest];
              [|discriminate]).
    all: intros H; rewrite H in Hb; destruct Hb as [g [i (Hg & Hi & Hlt)]];
      exists p, ps, g, i; auto.
  - intros [-> | ->]; reflexivity.
Qed.

End EventFacts.

(** ** The dashboard *)

Section DashboardFacts.

Import PyStr Dashboard.

Lemma xleb_xltb_cases (a b : xnum) :
  notna a = true -> notna b = true -> xltb a b = true \/ xleb b a = true.
Proof.
  intros Ha Hb. destruct (xltb a b) eqn:E; [now left | right].
  now apply xltb_false_xleb.
Qed.

(** X15: the affordability label is empty exactly for a ratio that is
    NaN or negative; otherwise the five labels correspond to the half-open
    bands from 0 to 3, 3 to 4, 4 to 5, 5 to 9 and from 9 on, which cover
    every non-negative ratio, the infinite one included. *)
Theorem affordability_bands (ratio : xnum) :
  (affordability ratio = "" <-> xleb (Fin 0) ratio = false)
  /\ (affordability ratio = "Affordable" <->
      xleb (Fin 0) ratio = true /\ xltb ratio (Fin 3) = true)
  /\ (affordability ratio = "Moderately Unaffordable" <->
      xleb (Fin 3) ratio = true /\ xltb ratio (Fin 4) = true)
  /\ (affordability ratio = "Seriously Unaffordable" <->
      xleb (Fin 4) ratio = true /\ xltb ratio (Fin 5) = true)
  /\ (affordability ratio = "Severly Unaffordable" <->
      xleb (Fin 5) ratio = true /\ xltb ratio (Fin 9) = true)
  /\ (affordability ratio = "Impossibly Unaffordable" <-> xleb (Fin 9) ratio = true).
Proof.
  assert (Hmono : forall a b : Q, (a <= b)%Q -> xleb (Fin b) ratio = true ->
                                    xleb (Fin a) ratio = true).
  { intros a b Hab H. apply (xleb_trans (Fin a) (Fin b) ratio); [|assumption].
    now apply Qle_bool_iff. }
  assert (Hexcl : forall a b : Q, (a <= b)%Q -> xltb ratio (Fin a) = true ->
                                    xleb (Fin b) ratio = true -> False).
  { intros a b Hab H1 H2.
    pose proof (xltb_xleb_trans ratio (Fin a) (Fin b) H1) as H3.
    assert (H4 : xleb (Fin a) (Fin b) = true) by now apply Qle_bool_iff.
    specialize (H3 H4).
    pose proof (xleb_xltb_false _ _ H2). congruence. }
  assert (H03 : (0 <= 3)%Q) by (unfold Qle; simpl; lia).
  assert (H04 : (0 <= 4)%Q) by (unfold Qle; simpl; lia).
  assert (H05 : (0 <= 5)%Q) by (unfold Qle; simpl; lia).
  assert (H09 : (0 <= 9)%Q) by (unfold Qle; simpl; lia).
  assert (H34 : (3 <= 4)%Q) by (unfold Qle; simpl; lia).
  assert (H35 : (3 <= 5)%Q) by (unfold Qle; simpl; lia).
  assert (H39 : (3 <= 9)%Q) by (unfold Qle; simpl; lia).
  assert (H45 : (4 <= 5)%Q) by (unfold Qle; simpl; lia).
  assert (H49 : (4 <= 9)%Q) by (unfold Qle; simpl; lia).
  assert (H59 : (5 <= 9)%Q) by (unfold Qle; simpl; lia).
  assert (H33 : (3 <= 3)%Q) by apply Qle_refl.
  assert (H44 : (4 <= 4)%Q) by apply Qle_refl.
  assert (H55 : (5 <= 5)%Q) by apply Qle_refl.
  assert (H99 : (9 <= 9)%Q) by apply Qle_refl.
  unfold affordability.
  destruct (xleb (Fin 0) ratio) eqn:E0.
  2:{ assert (N : forall b : Q, (0 <= b)%Q -> xleb (Fin b) ratio = false).
      { intros b Hb. destruct (xleb (Fin b) ratio) eqn:E; [|reflexivity].
        rewrite (Hmono 0%Q b Hb E) in E0. discriminate. }
      rewrite (N 3%Q H03), (N 4%Q H04), (N 5%Q H05), (N 9%Q H09). cbn [andb].
      repeat split; try discriminate; try reflexivity; intros [H _]; discriminate. }
  assert (Hna : notna ratio = true) by (apply (xleb_notna _ _ E0)).
  cbn [andb].
  destruct (xltb ratio (Fin 3)) eqn:L3.
  { repeat split; try discriminate; try reflexivity; auto;
      try (intros [H _]; exfalso; eauto); try (intros H; exfalso; eauto). }
  assert (G3 : xleb (Fin 3) ratio = true) by (apply xltb_false_xleb; auto).
  rewrite G3. cbn [andb].
  destruct (xltb ratio (Fin 4)) eqn:L4.
  { repeat split; try discriminate; try reflexivity; auto;
      try (intros [_ H]; discriminate);
      try (intros [H _]; exfalso; eauto); try (intros H; exfalso; eauto). }
  assert (G4 : xleb (Fin 4) ratio = true) by (apply xltb_false_xleb; auto).
  rewrite G4. cbn [andb].
  destruct (xltb ratio (Fin 5)) eqn:L5.
  { repeat split; try discriminate; try reflexivity; auto;
      try (intros [_ H]; discriminate);
      try (intros [H _]; exfalso; eauto); try (intros H; exfalso; eauto). }
  assert (G5 : xleb (Fin 5) ratio = true) by (apply xltb_false_xleb; auto).
  rewrite G5. cbn [andb].
  destruct (xltb ratio (Fin 9)) eqn:L9.
  { repeat split; try discriminate; try reflexivity; auto;
      try (intros [_ H]; discriminate);
      try (intros [H _]; exfalso; eauto); try (intros H; exfalso; eauto). }
  assert (G9 : xleb (Fin 9) ratio = true) by (apply xltb_false_xleb; auto).
  rewrite G9.
  repeat split; try discriminate; try reflexivity; auto;
    try (intros [_ H]; discriminate).
Qed.

Lemma step_state_ok (st : SessionState) (ev : ui_event) :
  state_ok st -> state_ok (step st ev).
Proof.
  intros [(Hv & Hc & Hz) | (Hv & Hc)]; destruct st as [v c z]; simpl in *; subst.
  - destruct ev; simpl.
    + left. auto.
    + right. split; [reflexivity | discriminate].
    + destruct (truthy_opt clicked_city && negb (opt_eqb clicked_city None)) eqn:E.
      * right. split; [reflexivity|]. destruct clicked_city; [discriminate|].
        discriminate E.
      * left. auto.
    + left. auto.
    + left. auto.
  - destruct ev; simpl.
    + left. auto.
    + right. auto.
    + right. auto.
    + destruct (truthy_opt c); [|right; auto].
      destruct z; right; auto.
    + destruct (truthy_opt c && truthy_opt clicked_zip); right; auto.
Qed.

(** X16: after any sequence of writes to the session state, either the
    view is the metro view with no metro and no ZIP selected, or it is the
    ZIP view with a metro selected. *)
Theorem selection_state_invariant (events : list ui_event) :
  let st := run events in
  (view_mode st = "city" /\ selected_city st = None /\ selected_zip st = None)
  \/ (view_mode st = "zip" /\ selected_city st <> None).
Proof.
  cbv zeta. unfold run.
  assert (H : forall evs st, state_ok st -> state_ok (fold_left step evs st)).
  { induction evs as [|ev evs IH]; intros st Hst; simpl; [assumption|].
    apply IH. now apply step_state_ok. }
  apply (H events init_state). left. auto.
Qed.

End DashboardFacts.

(** ** More on the metric engine *)

Section PtiOrder.

Import Metric.

(** X17: compute_pti keeps the order of the rows: its output is the list
    of the kept input rows, each with its ratio; and applying it to the
    housing records of its own output changes nothing. *)
Theorem compute_pti_order (df : list HouseRow) :
  compute_pti df = map (fun r => mkPtiRow r (pti_ratio r)) (filter pti_kept df)
  /\ compute_pti (map pti_house (compute_pti df)) = compute_pti df.
Proof.
  assert (H : forall l, compute_pti l
                        = map (fun r => mkPtiRow r (pti_ratio r)) (filter pti_kept l)).
  { intros l. unfold compute_pti, pti_kept, pti_ratio.
    induction l as [|r l IH]; [reflexivity|].
    simpl. destruct (pti_valid r); simpl; [|exact IH].
    destruct (pti_outlier (xdiv (median_sale_price r) (per_capita_income r))); simpl.
    - rewrite andb_false_r. exact IH.
    - rewrite andb_true_r.
      destruct (notna (xdiv (median_sale_price r) (per_capita_income r))); simpl;
        [f_equal|]; exact IH. }
  split; [apply H|].
  rewrite !H, map_map. cbn [pti_house]. rewrite map_id.
  f_equal. clear H. induction df as [|r df IH]; [reflexivity|].
  cbn [filter]. destruct (pti_kept r) eqn:E; [|exact IH].
  cbn [filter]. now rewrite E, IH.
Qed.

End PtiOrder.

Section YoYGroups.

Import Metric.

Context {A K : Type}.
Variable year_col : A -> Z.
Variable group_cols : A -> K.
Variable keqb : K -> K -> bool.
Variable value_col : A -> xnum.
Hypothesis keqb_spec : forall a b, keqb a b = true <-> a = b.

Lemma group_keys_nodup (df : list A) : forall seen,
  NoDup (group_keys group_cols keqb seen df)
  /\ forall k, In k (group_keys group_cols keqb seen df) -> ~ In k seen.
Proof.
  induction df as [|r df IH]; intros seen; simpl.
  - split; [constructor | intros k []].
  - destruct (existsb (keqb (group_cols r)) seen) eqn:E.
    + apply IH.
    + destruct (IH (group_cols r :: seen)) as [Hnd Hdis]. split.
      * constructor; [|assumption]. intros H. apply (Hdis _ H). now left.
      * intros k [<- | Hk].
        { intros H. apply (existsb_keqb keqb keqb_spec) in H. congruence. }
        { intros H. apply (Hdis _ Hk). now right. }
Qed.

Lemma compute_yoy_merged (df_all : list A) (current_year : Z) (rows : list (YoyRow K)) :
  let cur := filter (fun r => Z.eqb (year_col r) current_year) df_all in
  let prev := filter (fun r => Z.eqb (year_col r) (current_year - 1)) df_all in
  compute_yoy year_col group_cols keqb value_col df_all current_year = Merged rows ->
  map (@yoy_key K) rows = group_keys group_cols keqb [] cur
  /\ forall y, In y rows ->
     yoy_value y = group_mean group_cols keqb value_col cur (yoy_key y)
     /\ yoy_value_prev y = group_mean group_cols keqb value_col prev (yoy_key y)
     /\ yoy_pct y = pct_of (yoy_value y) (yoy_value_prev y).
Proof.
  intros cur prev. unfold compute_yoy. fold cur. fold prev.
  destruct prev as [|p0 prev'] eqn:Ep; [discriminate|]. rewrite <- Ep.
  intros H. injection H as <-. split.
  - unfold groupby_mean. rewrite !map_map. cbn [yoy_key agg_key]. apply map_id.
  - intros y Hy. apply in_map_iff in Hy. destruct Hy as [c [<- Hc]].
    apply in_map_iff in Hc. destruct Hc as [k [<- Hk]].
    cbn [yoy_key yoy_value yoy_value_prev yoy_pct agg_key agg_value].
    rewrite (merge_left_group_mean group_cols keqb value_col keqb_spec).
    cbn [agg_key]. auto.
Qed.

(** X18: when compute_yoy returns the merged table there is a previous-year
    row, no two rows have the same group key, and the group keys are
    exactly those of the current-year rows. *)
Theorem compute_yoy_one_row_per_group (df_all : list A) (current_year : Z)
  (rows : list (YoyRow K)) :
  compute_yoy year_col group_cols keqb value_col df_all current_year = Merged rows ->
  NoDup (map (@yoy_key K) rows)
  /\ (forall k, In k (map (@yoy_key K) rows) <->
        exists r, In r df_all /\ year_col r = current_year /\ group_cols r = k)
  /\ (exists r, In r df_all /\ year_col r = (current_year - 1)%Z).
Proof.
  intros H.
  assert (Hprev : exists r, In r df_all /\ year_col r = (current_year - 1)%Z).
  { unfold compute_yoy in H.
    destruct (filter (fun r => Z.eqb (year_col r) (current_year - 1)) df_all)
      as [|p0 prev'] eqn:Ep; [discriminate|].
    assert (Hin : In p0 (p0 :: prev')) by now left.
    rewrite <- Ep in Hin. apply filter_In in Hin. destruct Hin as [Hin E].
    apply Z.eqb_eq in E. eauto. }
  destruct (compute_yoy_merged df_all current_year rows H) as [Hk _].
  rewrite Hk. split; [apply group_keys_nodup|]. split; [|exact Hprev].
  intros k. split.
  - intros Hin. apply group_keys_sound in Hin. destruct Hin as [r [Hr <-]].
    apply filter_In in Hr. destruct Hr as [Hr E]. apply Z.eqb_eq in E. eauto.
  - intros [r (Hr & Hy & <-)].
    destruct (group_keys_complete group_cols keqb keqb_spec
                (filter (fun r => Z.eqb (year_col r) current_year) df_all) [] r)
      as [[] | Hin]; [|exact Hin].
    apply filter_In. split; [assumption | now apply Z.eqb_eq].
Qed.

End YoYGroups.

Section RankingBounds.

Import Metric.

Lemma rint_nonneg (x : Q) : (0 <= x)%Q -> (0 <= rint x)%Z.
Proof.
  intros H. unfold rint.
  assert (Hf : (0 <= Qfloor x)%Z).
  { change 0%Z with (Qfloor 0). now apply Qfloor_resp_le. }
  destruct (Qltb _ _); [assumption|].
  destruct (Qltb _ _); [lia|]. destruct (Z.even _); lia.
Qed.

Lemma rint_le_Z (x : Q) (n : Z) : (x <= inject_Z n)%Q -> (rint x <= n)%Z.
Proof.
  intros H. unfold rint.
  assert (Hf : (Qfloor x <= n)%Z).
  { rewrite <- (Qfloor_Z n). now apply Qfloor_resp_le. }
  destruct (Qltb (x - inject_Z (Qfloor x)) (1 # 2)) eqn:E; [assumption|].
  apply Qltb_ge in E.
  assert (Hlt : (Qfloor x < n)%Z).
  { destruct (Z.eq_dec (Qfloor x) n) as [En | Hne]; [|lia].
    exfalso. rewrite En in E.
    assert (Hc : (x - inject_Z n <= 0)%Q).
    { apply (Qplus_le_l _ _ (inject_Z n)). ring_simplify. exact H. }
    assert (H12 : (1 # 2 <= 0)%Q) by (eapply Qle_trans; eauto).
    unfold Qle in H12. simpl in H12. lia. }
  destruct (Qltb _ _); [lia|]. destruct (Z.even _); lia.
Qed.

Lemma round1_bounds (x : Q) :
  (0 <= x)%Q -> (x <= 100)%Q -> (0 <= round1 x)%Q /\ (round1 x <= 100)%Q.
Proof.
  intros H0 H100. unfold round1.
  assert (Hx0 : (0 <= x * 10)%Q).
  { apply Qmult_le_0_compat; [assumption|]. unfold Qle. simpl. lia. }
  assert (Hx1 : (x * 10 <= inject_Z 1000)%Q).
  { setoid_replace (inject_Z 1000) with (100 * 10)%Q by reflexivity.
    apply Qmult_le_compat_r; [assumption|]. unfold Qle. simpl. lia. }
  pose proof (rint_nonneg _ Hx0) as Hr0.
  pose proof (rint_le_Z _ _ Hx1) as Hr1.
  remember (rint (x * 10)) as n eqn:En. clear En.
  split; unfold Qdiv, Qmult, Qle, inject_Z, Qinv; simpl; lia.
Qed.

Lemma round1_exact (x : Q) (n : Z) :
  (x * 10 == inject_Z n)%Q -> (round1 x == inject_Z n / 10)%Q.
Proof.
  intros H. unfold round1, rint.
  assert (Hf : Qfloor (x * 10) = n).
  { rewrite (Qfloor_comp _ _ H). apply Qfloor_Z. }
  rewrite Hf.
  assert (Hlt : Qltb (x * 10 - inject_Z n) (1 # 2) = true).
  { apply Qltb_lt. rewrite H. ring_simplify. reflexivity. }
  rewrite Hlt. reflexivity.
Qed.

Context {A : Type}.
Variable value_col : A -> xnum.

Lemma exists_largest (df : list A) :
  df <> [] -> (forall x, In x df -> notna (value_col x) = true) ->
  exists a, In a df /\ forall x, In x df -> xleb (value_col x) (value_col a) = true.
Proof.
  induction df as [|a df IH]; [congruence|]. intros _ Hna.
  destruct df as [|b df'].
  - exists a. split; [now left|]. intros x [<- | []].
    destruct (xleb_total (value_col a) (value_col a)) as [H | H]; auto;
      apply Hna; now left.
  - destruct IH as [m [Hm Hmax]]; [discriminate | intros x Hx; apply Hna; now right|].
    destruct (xleb_total (value_col a) (value_col m)) as [H | H].
    + apply Hna. now left.
    + apply Hna. now right.
    + exists m. split; [now right|]. intros x [<- | Hx]; auto.
    + exists a. split; [now left|]. intros x [<- | Hx].
      * destruct (xleb_total (value_col a) (value_col a)) as [H' | H']; auto;
          apply Hna; now left.
      * eapply xleb_trans; [apply Hmax; assumption | assumption].
Qed.

(** X19: in a table returned by compute_rankings for a non-empty input
    some row has rank 1; every percentile lies between 0 and 100, and a
    row of rank 1 has percentile 100. *)
Theorem compute_rankings_top_and_bounds (df : list A) (rs : list (Ranked A)) :
  compute_rankings value_col df = Some rs ->
  (df <> [] -> exists r, In r rs /\ rank r = 1%Z)
  /\ forall r, In r rs ->
     xleb (Fin 0) (percentile r) = true
     /\ xleb (percentile r) (Fin 100) = true
     /\ (rank r = 1%Z -> xeqb (percentile r) (Fin 100) = true).
Proof.
  rewrite compute_rankings_eq.
  destruct (forallb (fun r => notna (value_col r)) df) eqn:Hna; [|discriminate].
  intros H. injection H as <-.
  assert (Hnotna : forall x, In x df -> notna (value_col x) = true).
  { intros x Hx. rewrite forallb_forall in Hna. now apply Hna. }
  split.
  - intros Hne. destruct (exists_largest df Hne Hnotna) as [a [Ha Hmax]].
    exists (ranked_in value_col df a). split; [now apply in_map|].
    cbn [ranked_in rank]. now apply rank_in_top.
  - intros r Hr. apply in_map_iff in Hr. destruct Hr as [a [<- Ha]].
    unfold ranked_in; cbn [rank percentile].
    set (t := Z.of_nat (List.length df)).
    set (rk := rank_in value_col df (value_col a)).
    assert (Hpos : (0 < t)%Z).
    { unfold t. destruct df; [contradiction | cbn [List.length]; lia]. }
    assert (Hrk : (1 <= rk <= t)%Z).
    { unfold rk, rank_in, t. pose proof (above_lt value_col df a Ha). lia. }
    rewrite percentile_of_pos by assumption.
    assert (Ht : (0 < inject_Z t)%Q).
    { unfold Qlt, inject_Z. simpl. lia. }
    assert (Hx0 : (0 <= inject_Z (t - rk + 1) / inject_Z t * 100)%Q).
    { apply Qmult_le_0_compat; [|unfold Qle; simpl; lia].
      apply Qle_shift_div_l; [assumption|]. ring_simplify.
      unfold Qle, inject_Z. simpl. lia. }
    assert (Hx1 : (inject_Z (t - rk + 1) / inject_Z t * 100 <= 100)%Q).
    { setoid_replace 100%Q with (1 * 100)%Q at 2 by reflexivity.
      apply Qmult_le_compat_r; [|unfold Qle; simpl; lia].
      apply Qle_shift_div_r; [assumption|]. ring_simplify.
      unfold Qle, inject_Z. simpl. lia. }
    destruct (round1_bounds _ Hx0 Hx1) as [Hb0 Hb1].
    cbn [xleb xeqb]. split; [now apply Qle_bool_iff|]. split; [now apply Qle_bool_iff|].
    intros E1. apply Qeq_bool_iff.
    rewrite (round1_exact _ 1000).
    + reflexivity.
    + rewrite E1. replace (t - 1 + 1)%Z with t by lia.
      field. intros E. rewrite E in Ht. discriminate.
Qed.

End RankingBounds.

Section MetroYoYFacts.

Import Metric MetroYoY.

Lemma key_eqb_spec (a b : string * string) : key_eqb a b = true <-> a = b.
Proof.
  destruct a as [a1 a2], b as [b1 b2]. unfold key_eqb. cbn [fst snd].
  rewrite andb_true_iff, !String.eqb_eq. split.
  - intros [-> ->]. reflexivity.
  - intros H. injection H as -> ->. auto.
Qed.

Lemma xsum_within (lo hi : Q) (l : list xnum) : forall acc,
  (forall x, In x l -> within lo hi x) ->
  exists s, fold_left xadd l (Fin acc) = Fin s
            /\ (acc + lo * inject_Z (Z.of_nat (List.length l)) <= s)%Q
            /\ (s <= acc + hi * inject_Z (Z.of_nat (List.length l)))%Q.
Proof.
  induction l as [|x l IH]; intros acc H.
  - exists acc. split; [reflexivity|]. cbn [List.length Z.of_nat].
    split; ring_simplify; apply Qle_refl.
  - destruct (H x (or_introl eq_refl)) as [q (-> & Hlo & Hhi)].
    destruct (IH (acc + q)%Q (fun y Hy => H y (or_intror Hy))) as [s (Hs & H1 & H2)].
    exists s. split; [exact Hs|].
    assert (E : (inject_Z (Z.of_nat (List.length (Fin q :: l)))
                 == 1 + inject_Z (Z.of_nat (List.length l)))%Q).
    { cbn [List.length]. rewrite Nat2Z.inj_succ. unfold Z.succ.
      rewrite inject_Z_plus. ring. }
    rewrite E. split.
    + eapply Qle_trans; [|exact H1].
      setoid_replace (acc + lo * (1 + inject_Z (Z.of_nat (List.length l))))%Q
        with ((acc + lo) + lo * inject_Z (Z.of_nat (List.length l)))%Q by ring.
      apply Qplus_le_l. now apply Qplus_le_r.
    + eapply Qle_trans; [exact H2|].
      setoid_replace (acc + hi * (1 + inject_Z (Z.of_nat (List.length l))))%Q
        with ((acc + hi) + hi * inject_Z (Z.of_nat (List.length l)))%Q by ring.
      apply Qplus_le_l. now apply Qplus_le_r.
Qed.

Lemma filter_all {B : Type} (p : B -> bool) (l : list B) :
  (forall x, In x l -> p x = true) -> filter p l = l.
Proof.
  induction l as [|x l IH]; intros H; [reflexivity|]. simpl.
  rewrite (H x (or_introl eq_refl)). f_equal. apply IH. intros y Hy. apply H. now right.
Qed.

(** the mean of finite values between two bounds lies between them *)
Lemma mean_within (lo hi : Q) (l : list xnum) :
  l <> [] -> (forall x, In x l -> within lo hi x) -> within lo hi (mean l).
Proof.
  intros Hne H. unfold mean.
  rewrite filter_all.
  2:{ intros x Hx. destruct (H x Hx) as [q [-> _]]. reflexivity. }
  destruct l as [|x0 l0] eqn:El; [congruence|]. rewrite <- El in *.
  destruct (xsum_within lo hi l 0 H) as [s (Hs & H1 & H2)].
  unfold xsum. rewrite Hs. unfold of_Z.
  set (n := inject_Z (Z.of_nat (List.length l))) in *.
  assert (Hn : (0 < n)%Q).
  { unfold n, Qlt, inject_Z. rewrite El. cbn [List.length]. simpl. lia. }
  cbn [xdiv]. rewrite Qeq_bool_false.
  2:{ intros E. rewrite E in Hn. discriminate. }
  exists (s / n)%Q. split; [reflexivity|]. split.
  - apply Qle_shift_div_l; [assumption|]. eapply Qle_trans; [|exact H1].
    ring_simplify. apply Qle_refl.
  - apply Qle_shift_div_r; [assumption|]. eapply Qle_trans; [exact H2|].
    ring_simplify. apply Qle_refl.
Qed.

Lemma compute_pti_within (df : list HouseRow) (p : PtiRow) :
  In p (compute_pti df) -> within (1 # 2) 50 (PTI p).
Proof.
  intros H. apply compute_pti_In in H. destruct H as (_ & _ & _ & Hna & Ho).
  apply pti_outlier_band in Ho; [|assumption]. destruct Ho as [Hlo Hhi].
  destruct (PTI p) as [q| | |]; try discriminate.
  exists q. split; [reflexivity|]. cbn [xleb] in *. now rewrite !Qle_bool_iff in *.
Qed.

Lemma group_mean_within (rows : list PtiRow) (k : string * string) :
  (forall p, In p rows -> within (1 # 2) 50 (PTI p)) ->
  let g := filter (fun r => key_eqb (metro_key (pti_house r)) k) rows in
  (g = [] /\ group_mean (fun r => metro_key (pti_house r)) key_eqb PTI rows k = NaN)
  \/ (g <> []
      /\ within (1 # 2) 50 (group_mean (fun r => metro_key (pti_house r)) key_eqb PTI rows k)).
Proof.
  intros H g. unfold group_mean. fold g.
  destruct g as [|r0 g'] eqn:Eg; [left; split; reflexivity | right].
  split; [discriminate|]. rewrite <- Eg.
  apply mean_within.
  - rewrite Eg. discriminate.
  - intros x Hx. apply in_map_iff in Hx. destruct Hx as [r [<- Hr]].
    apply H. unfold g in Hr. now apply filter_In in Hr.
Qed.

(** X20: for the PTI metric get_metro_yoy never yields an infinite
    value: with no previous-year PTI row at all every yoy_pct is NaN;
    otherwise each group mean lies between 0.5 and 50, and yoy_pct is NaN
    when the group has no previous-year PTI row and a finite number when
    it has one. *)
Theorem get_metro_yoy_pti_finite (df_all : list HouseRow) (current_year : Z) :
  exists t,
    get_metro_yoy df_all current_year "Price-to-Income Ratio (PTI)" = inl t
    /\ match t with
       | CurrentRows rows => forall y, In y rows -> snd y = NaN
       | Merged rows =>
           forall y, In y rows ->
           within (1 # 2) 50 (yoy_value y)
           /\ ((yoy_value_prev y = NaN /\ yoy_pct y = NaN)
               \/ (within (1 # 2) 50 (yoy_value_prev y)
                   /\ exists q, yoy_pct y = Fin q))
       end.
Proof.
  unfold get_metro_yoy. cbn [String.eqb Ascii.eqb Bool.eqb andb].
  eexists. split; [reflexivity|].
  set (rows := compute_pti df_all).
  set (yr := fun r : PtiRow => year (pti_house r)).
  set (key := fun r : PtiRow => metro_key (pti_house r)).
  destruct (compute_yoy yr key key_eqb PTI rows current_year) as [cr|mr] eqn:E.
  - unfold compute_yoy in E.
    destruct (filter (fun r => Z.eqb (yr r) (current_year - 1)) rows); [|discriminate].
    injection E as <-. intros y Hy. apply in_map_iff in Hy.
    destruct Hy as [r [<- _]]. reflexivity.
  - destruct (compute_yoy_merged yr key key_eqb PTI key_eqb_spec rows current_year mr E)
      as [Hkeys Hrows].
    intros y Hy. destruct (Hrows y Hy) as (Hv & Hp & Hpct).
    set (cur := filter (fun r => Z.eqb (yr r) current_year) rows) in *.
    set (prev := filter (fun r => Z.eqb (yr r) (current_year - 1)) rows) in *.
    assert (Hcur : forall p, In p cur -> within (1 # 2) 50 (PTI p)).
    { intros p Hp0. apply filter_In in Hp0. apply (compute_pti_within df_all). tauto. }
    assert (Hprev : forall p, In p prev -> within (1 # 2) 50 (PTI p)).
    { intros p Hp0. apply filter_In in Hp0. apply (compute_pti_within df_all). tauto. }
    assert (Hc : within (1 # 2) 50 (yoy_value y)).
    { rewrite Hv.
      destruct (group_mean_within cur (yoy_key y) Hcur) as [[Hg _] | [_ Hw]]; [|exact Hw].
      exfalso.
      assert (Hk : In (yoy_key y) (group_keys key key_eqb [] cur)).
      { rewrite <- Hkeys. now apply in_map. }
      apply group_keys_sound in Hk. destruct Hk as [r [Hr Hkr]].
      assert (Hin : In r []).
      { rewrite <- Hg. apply filter_In. split; [assumption|].
        apply key_eqb_spec. exact Hkr. }
      destruct Hin. }
    split; [exact Hc|].
    destruct (group_mean_within prev (yoy_key y) Hprev) as [[_ Hn] | [_ Hw]].
    + left. fold key in Hn. rewrite Hpct, Hp, Hn. split; [reflexivity|].
      apply pct_of_prev_nan.
    + right. fold key in Hw. rewrite <- Hp in Hw. split; [exact Hw|].
      destruct Hc as [c (Ec & _ & _)]. destruct Hw as [p (Ep & Hlo & _)].
      rewrite Hpct, Ec, Ep. rewrite pct_of_finite; [eauto|].
      intros E0. rewrite E0 in Hlo. unfold Qle in Hlo. simpl in Hlo. lia.
Qed.

End MetroYoYFacts.

Section CityChartFacts.

Import Geo Keys Charts.

Context {G : Type}.
Variable re_compile : string -> option (string -> bool).

Lemma with_ids_length {A : Type} (l : list A) : List.length (with_ids l) = List.length l.
Proof. rewrite <- (with_ids_snd l) at 2. now rewrite length_map. Qed.

(** X21: create_city_choropleth raises exactly when the matcher raises on
    a row whose average is not NaN (a NaN average is filtered out before
    and cannot make the ranking raise); the table it returns is not empty,
    the row at position k has the id str(k) and rank_total the number of
    rows, and every row is the record of a matched input row. *)
Theorem create_city_choropleth_table (df_city : list CityRow) (cbsa_gdf : list (Boundary G)) :
  (create_city_choropleth re_compile df_city cbsa_gdf = ChartRaised <->
   exists row, In row df_city /\ notna (avg_metric_value row) = true
               /\ match_row re_compile cbsa_gdf row = Raised)
  /\ forall t, create_city_choropleth re_compile df_city cbsa_gdf = Chart t ->
     t <> []
     /\ forall k p, nth_error t k = Some p ->
        fst p = str_of_nat k
        /\ Metric.rank_total (snd p) = Z.of_nat (List.length t)
        /\ exists row best,
             In row df_city /\ notna (avg_metric_value row) = true
             /\ match_row re_compile cbsa_gdf row = Matched best
             /\ Metric.ranked_row (snd p) = record_of row best.
Proof.
  assert (Hdrop : create_city_choropleth re_compile df_city cbsa_gdf
                  = match filter (fun r => notna (avg_metric_value r)) df_city with
                    | [] => NoChart
                    | df =>
                        match build_city_cbsa_polygons re_compile df cbsa_gdf with
                        | None => ChartRaised
                        | Some [] => NoChart
                        | Some city_polygons => Chart (with_ids city_polygons)
                        end
                    end).
  { unfold create_city_choropleth. destruct df_city as [|r0 l]; [reflexivity|].
    cbv zeta. destruct (filter _ (r0 :: l)); reflexivity. }
  rewrite Hdrop. clear Hdrop.
  set (df := filter (fun r => notna (avg_metric_value r)) df_city).
  assert (Hdf : forall row, In row df <->
                            In row df_city /\ notna (avg_metric_value row) = true).
  { intros row. unfold df. apply filter_In. }
  assert (Hna : forall row, In row df -> notna (avg_metric_value row) = true).
  { intros row Hr. now apply Hdf in Hr. }
  destruct (build_rows re_compile df cbsa_gdf) as [Hnone Hsome].
  specialize (Hnone Hna).
  destruct (match_rows_spec re_compile cbsa_gdf df) as [Hspecn Hspec].
  assert (Hraise : (exists row, In row df_city /\ notna (avg_metric_value row) = true
                                /\ match_row re_compile cbsa_gdf row = Raised)
                   <-> build_city_cbsa_polygons re_compile df cbsa_gdf = None).
  { rewrite Hnone, Hspecn. split.
    - intros [row (H1 & H2 & H3)]. exists row. split; [apply Hdf; auto | assumption].
    - intros [row (H1 & H2)]. apply Hdf in H1. exists row. tauto. }
  clearbody df.
  destruct df as [|d0 df'] eqn:Ed.
  { split; [|discriminate]. split; [discriminate|].
    intros [row (H1 & H2 & _)]. assert (Hin : In row []) by (apply Hdf; auto).
    destruct Hin. }
  rewrite <- Ed in *. clear Ed d0 df'.
  destruct (build_city_cbsa_polygons re_compile df cbsa_gdf) as [[|o out]|] eqn:Eb.
  - split; [|discriminate]. split; [discriminate|].
    intros H. apply Hraise in H. discriminate.
  - split.
    { split; [discriminate|]. intros H. apply Hraise in H. discriminate. }
    intros t Ht. injection Ht as <-.
    destruct (Hsome (o :: out) eq_refl) as [records (Hm & Hout)].
    pose proof (Hspec records Hm) as Hin.
    assert (Hrec : map (@Metric.ranked_row _) (o :: out) = records).
    { rewrite Hout, map_map. apply map_id. }
    assert (Hrank : forall a, In a (o :: out) ->
                      Metric.rank_total a = Z.of_nat (List.length records)).
    { intros a Ha. rewrite Hout in Ha. apply in_map_iff in Ha.
      now destruct Ha as [x [<- _]]. }
    split.
    { intros E. apply (f_equal (@List.length _)) in E.
      rewrite with_ids_length in E. discriminate. }
    intros k p Hk. rewrite with_ids_nth in Hk.
    destruct (nth_error (o :: out) k) as [a|] eqn:Ea; [|discriminate].
    injection Hk as <-. cbn [fst snd].
    apply nth_error_In in Ea.
    split; [reflexivity|]. split.
    { rewrite (Hrank a Ea), with_ids_length, <- Hrec.
      now rewrite length_map. }
    assert (Hr : In (Metric.ranked_row a) records).
    { rewrite <- Hrec. now apply in_map. }
    apply Hin in Hr. destruct Hr as [row [best (H1 & H2 & H3)]].
    apply Hdf in H1. exists row, best. tauto.
  - split; [|discriminate]. split; [intros _; now apply Hraise | reflexivity].
Qed.

End CityChartFacts.

(** ** The added properties on concrete tables *)

Section MoreExamples.

Import PyStr Geo Samples Keys Charts Events.

Lemma match_row_in_table_witness :
  let wa := boundary "Seattle-Tacoma-Bellevue, WA" 0 (47 # 1) (-122 # 1) in
  let oregon := boundary "Seattle, OR" 1 (45 # 1) (-123 # 1) in
  let row := mkCityRow "Seattle" (Some "Seattle, WA") (Fin 500000) NaN NaN in
  match_row plain_compile [wa; oregon] row = Matched wa /\ In wa [wa; oregon].
Proof.
  intros wa oregon row. split; [reflexivity|].
  apply (match_row_in_table plain_compile [wa; oregon] row wa). reflexivity.
Defined.

Lemma zip_click_round_trip_witness :
  let gdf := [mkZipMerged "98101" 0%nat (Fin 5) "Seattle, WA";
              mkZipMerged "98102" 1%nat NaN "Seattle, WA";
              mkZipMerged "98103" 2%nat (Fin 7) "Seattle, WA"] in
  exists t row,
    create_zip_choropleth gdf = Chart t
    /\ nth_error t 1 = Some row
    /\ chart_zip row = "98103"
    /\ extract_zip_from_event (fun s : string => s) chart_id chart_zip
         (Some [@mkPoint string None (Some "1") None]) (Some t) = Zip "98103"
    /\ extract_zip_from_event (fun s : string => s) chart_id chart_zip
         (Some [@mkPoint string None None (Some 1%Z)]) (Some t) = Zip "98103".
Proof.
  intros gdf.
  destruct (create_zip_choropleth gdf) as [| |t] eqn:Et; try (vm_compute in Et; discriminate).
  destruct (nth_error t 1) as [row|] eqn:Er.
  2:{ vm_compute in Et. injection Et as <-. discriminate. }
  assert (Hz : chart_zip row = "98103").
  { vm_compute in Et. injection Et as <-. injection Er as <-. reflexivity. }
  exists t, row. split; [reflexivity|]. split; [exact Er|]. split; [exact Hz|].
  destruct (zip_click_round_trip (fun s : string => s) gdf t 1 row "1" Et Er eq_refl)
    as [H1 H2].
  rewrite <- Hz. split; [apply H1 | exact H2].
Defined.

Lemma compute_yoy_one_row_per_group_witness :
  (forall a b : string, String.eqb a b = true <-> a = b)
  /\ exists rows,
       Metric.compute_yoy (fun r => fst (fst r)) (fun r => snd (fst r)) String.eqb snd
         [(2019%Z, "Akron", Fin 4); (2020%Z, "Akron", Fin 4); (2020%Z, "Bend", Fin 7);
          (2020%Z, "Akron", Fin 6)] 2020 = Metric.Merged rows
       /\ NoDup (map (@Metric.yoy_key string) rows).
Proof.
  split; [exact String.eqb_eq|].
  destruct (Metric.compute_yoy (fun r : Z * string * xnum => fst (fst r))
              (fun r => snd (fst r)) String.eqb snd
              [(2019%Z, "Akron", Fin 4); (2020%Z, "Akron", Fin 4); (2020%Z, "Bend", Fin 7);
               (2020%Z, "Akron", Fin 6)] 2020) as [cr|rows] eqn:E.
  - vm_compute in E. discriminate.
  - exists rows. split; [reflexivity|].
    apply (compute_yoy_one_row_per_group (fun r : Z * string * xnum => fst (fst r))
             (fun r => snd (fst r)) String.eqb snd String.eqb_eq _ _ rows E).
Defined.

Lemma compute_rankings_top_and_bounds_witness :
  exists rs,
    Metric.compute_rankings (fun x : xnum => x) [Fin 20; Fin 30; Fin 30] = Some rs
    /\ exists r, In r rs /\ Metric.rank r = 1%Z.
Proof.
  destruct (Metric.compute_rankings (fun x : xnum => x) [Fin 20; Fin 30; Fin 30])
    as [rs|] eqn:E.
  - exists rs. split; [reflexivity|].
    apply (compute_rankings_top_and_bounds (fun x : xnum => x) _ rs E). discriminate.
  - vm_compute in E. discriminate.
Defined.

End MoreExamples.
